(** * Zenith Auto-Saver (app.py)

    A shallow embedding of the download helper: [format_bytes], the
    [DownloadMonitor] class, [sanitize_filename], [merge_audio_video], the
    resolution catalogue built by the page script and its adaptive /
    standard download branches.

    Conventions of the embedding.
    - Python [int] is [Z]; Python [float] (clock readings, ratios, speeds) is
      idealised as an exact rational [Q], so rounding of IEEE doubles is not
      part of the model.  The constant [0.1] is [1#10].
    - [time.time()] is an input: every operation that reads the clock takes
      the reading as an argument.
    - Exceptions are values of [PyExn]; a computation is a function from a
      state to a final state, the list of calls it made on the Streamlit
      widgets, and either a value or the exception that left it.
    - The Streamlit widgets are recorders: a call on a widget is appended to
      the log and returns. *)

From Stdlib Require Import ZArith QArith Qround Qpower Lqa Lia List String Ascii Bool Sorted.
From stdpp Require Import base strings gmap.
Import ListNotations.

Local Open Scope Z_scope.

(** ** Python values and exceptions *)

Inductive Key : Type :=
| IntKey (n : nat)
| TextKey (s : string).

Inductive PyExn : Type :=
| ZeroDivisionError
| KeyError (key : Key)
| AttributeError (attr : string)
| FileNotFoundError
| CalledProcessError (returncode : Z)
| OtherException (message : string).

Inductive PyResult (A : Type) : Type :=
| Ok (a : A)
| Raise (e : PyExn).
Arguments Ok {A} a.
Arguments Raise {A} e.

(** True division [a / b] on numbers: raises on a zero divisor. *)
Definition py_truediv (a b : Q) : PyResult Q :=
  if Qeq_dec b 0 then Raise ZeroDivisionError else Ok (a / b)%Q.

(** [min(a, b)]: the first argument unless the second is strictly smaller. *)
Definition py_min (a b : Q) : Q :=
  if Qlt_le_dec b a then b else a.

(** [int(x)] on a float: truncation toward zero. *)
Definition py_int (x : Q) : Z := Z.quot (Qnum x) (Zpos (Qden x)).

(** ** Computations with a state, a call log and exceptions *)

Module Eff.

Record Outcome (S E A : Type) : Type := mkOutcome {
  state : S;
  calls : list E;
  result : PyResult A
}.
Arguments mkOutcome {S E A} state calls result.
Arguments state {S E A} o.
Arguments calls {S E A} o.
Arguments result {S E A} o.

Definition t (S E A : Type) : Type := S -> Outcome S E A.

Section Ops.
Context {S E : Type}.

Definition ret {A} (a : A) : t S E A :=
  fun s => mkOutcome s [] (Ok a).

Definition bind {A B} (m : t S E A) (k : A -> t S E B) : t S E B :=
  fun s =>
    let o := m s in
    match result o with
    | Ok a =>
        let o' := k a (state o) in
        mkOutcome (state o') (calls o ++ calls o') (result o')
    | Raise e => mkOutcome (state o) (calls o) (Raise e)
    end.

Definition get : t S E S := fun s => mkOutcome s [] (Ok s).
Definition put (s' : S) : t S E unit := fun _ => mkOutcome s' [] (Ok tt).
Definition emit (c : E) : t S E unit := fun s => mkOutcome s [c] (Ok tt).
Definition raise {A} (e : PyExn) : t S E A := fun s => mkOutcome s [] (Raise e).
Definition lift {A} (r : PyResult A) : t S E A := fun s => mkOutcome s [] r.

(** [try: body except Exception as e: handler(e)] *)
Definition try_except {A} (body : t S E A) (handler : PyExn -> t S E A) : t S E A :=
  fun s =>
    let o := body s in
    match result o with
    | Ok a => o
    | Raise e =>
        let o' := handler e (state o) in
        mkOutcome (state o') (calls o ++ calls o') (result o')
    end.
End Ops.

End Eff.

Declare Scope eff_scope.
Delimit Scope eff_scope with eff.
Notation "x <- m ;; k" := (Eff.bind m (fun x => k))
  (at level 100, m at next level, right associativity) : eff_scope.
Notation "m ;;; k" := (Eff.bind m (fun _ => k))
  (at level 100, right associativity) : eff_scope.

(** ** [format_bytes] *)

Module FormatBytes.

Local Open Scope Q_scope.

Definition power : Q := 2 ^ 10.

(** [power_labels[n]]; a missing key raises [KeyError]. *)
Definition power_labels (n : nat) : PyResult string :=
  match n with
  | 0%nat => Ok ""%string
  | 1%nat => Ok "K"%string
  | 2%nat => Ok "M"%string
  | 3%nat => Ok "G"%string
  | 4%nat => Ok "T"%string
  | _ => Raise (KeyError (IntKey n))
  end.

(** The [while size > power] loop, bounded by [fuel] iterations. *)
Fixpoint scale (fuel : nat) (size : Q) (n : nat) : Q * nat :=
  match fuel with
  | O => (size, n)
  | S fuel' =>
      if Qlt_le_dec power size
      then scale fuel' (size / power) (S n)
      else (size, n)
  end.

(** A number of iterations after which the loop has left by its guard:
    the bit length of the integer part of [size]. *)
Definition scale_fuel (size : Q) : nat := Z.to_nat (Z.log2_up (Qceiling size)).

(** The rendered text is [f"{size:.1f} {label}B"]; the record keeps the two
    values that are interpolated. *)
Record Rendered : Type := mkRendered {
  mantissa : Q;
  label : string
}.

Definition format_bytes (size : Q) : PyResult Rendered :=
  let '(size', n) := scale (scale_fuel size) size 0 in
  match power_labels n with
  | Ok l => Ok (mkRendered size' l)
  | Raise e => Raise e
  end.

(** The number of bytes a rendered size stands for. *)
Definition unit_exponent (l : string) : Z :=
  if String.eqb l "K" then 1
  else if String.eqb l "M" then 2
  else if String.eqb l "G" then 3
  else if String.eqb l "T" then 4
  else 0.

Definition denotes (r : Rendered) : Q := mantissa r * power ^ unit_exponent (label r).

End FormatBytes.

(** ** [class DownloadMonitor] *)

Module DownloadMonitor.

Import FormatBytes.
Local Open Scope eff_scope.

(** A Streamlit element ([st.progress(0)], [st.empty()]); as a Python object
    it is truthy. *)
Record Widget : Type := mkWidget { widget_id : nat }.

(** Calls made on the two widgets. [TextMarkdown] keeps the values
    interpolated into the markdown text: [int(pct*100)],
    [format_bytes(downloaded)], [format_bytes(self.total_size)] and
    [format_bytes(speed)]. *)
Inductive SinkCall : Type :=
| BarProgress (w : Widget) (value : Q)
| TextMarkdown (w : Widget) (percent : Z) (done total speed : Rendered).

Record t : Type := mk {
  bar : option Widget;
  text : option Widget;
  total_size : Z;
  last_time : Q;
  last_bytes : Z
}.

(** [__init__] *)
Definition init : t := mk None None 0 0%Q 0.

Definition M (A : Type) : Type := Eff.t t SinkCall A.

(** [set_ui(bar, text, total_size)]; [now] is the reading of [time.time()]. *)
Definition set_ui (bar' text' : Widget) (total_size' : Z) (now : Q) : M unit :=
  Eff.put (mk (Some bar') (Some text') total_size' now total_size').

(** The condition of line 53:
    [current_time - self.last_time > 0.1 or bytes_remaining == 0]. *)
Definition due (self : t) (current_time : Q) (bytes_remaining : Z) : bool :=
  (if Qlt_le_dec (1 # 10) (current_time - last_time self) then true else false)
  || (bytes_remaining =? 0).

(** Attribute access on a field that may hold [None]. *)
Definition attr_of (o : option Widget) (name : string) : M Widget :=
  match o with
  | Some w => Eff.ret w
  | None => Eff.raise (AttributeError name)
  end.

(** [on_progress(stream, chunk, bytes_remaining)]; [stream] and [chunk] are
    not used by the body; [current_time] is the reading of [time.time()]. *)
Definition on_progress (current_time : Q) (bytes_remaining : Z) : M unit :=
  self <- Eff.get ;;
  match bar self with
  | None => Eff.ret tt
  | Some b =>
      if due self current_time bytes_remaining then
        let downloaded := total_size self - bytes_remaining in
        pct <- Eff.lift (if 0 <? total_size self
                         then py_truediv (inject_Z downloaded) (inject_Z (total_size self))
                         else Ok 0%Q) ;;
        let time_diff := (current_time - last_time self)%Q in
        let bytes_diff := last_bytes self - bytes_remaining in
        speed <- Eff.lift (if Qlt_le_dec 0 time_diff
                           then py_truediv (inject_Z bytes_diff) time_diff
                           else Ok 0%Q) ;;
        Eff.emit (BarProgress b (py_min pct 1)) ;;;
        txt <- attr_of (text self) "markdown" ;;
        let percent := py_int (pct * 100) in
        r_done <- Eff.lift (format_bytes (inject_Z downloaded)) ;;
        r_total <- Eff.lift (format_bytes (inject_Z (total_size self))) ;;
        r_speed <- Eff.lift (format_bytes speed) ;;
        Eff.emit (TextMarkdown txt percent r_done r_total r_speed) ;;;
        Eff.put (mk (bar self) (text self) (total_size self) current_time bytes_remaining)
      else Eff.ret tt
  end.

(** The transfer calls [on_progress] once per chunk: a sequence of calls,
    abandoned at the first one that raises. *)
Fixpoint on_progress_all (ticks : list (Q * Z)) : M unit :=
  match ticks with
  | [] => Eff.ret tt
  | (current_time, bytes_remaining) :: rest =>
      on_progress current_time bytes_remaining ;;; on_progress_all rest
  end.

(** The value of [pct] (line 57) and of [speed] (lines 63-65), and the
    monitor after the assignments of lines 75-76. *)
Definition pct_of (self : t) (bytes_remaining : Z) : Q :=
  if 0 <? total_size self
  then (inject_Z (total_size self - bytes_remaining) / inject_Z (total_size self))%Q
  else 0%Q.

Definition speed_of (self : t) (current_time : Q) (bytes_remaining : Z) : Q :=
  if Qlt_le_dec 0 (current_time - last_time self)
  then (inject_Z (last_bytes self - bytes_remaining) / (current_time - last_time self))%Q
  else 0%Q.

Definition updated (self : t) (current_time : Q) (bytes_remaining : Z) : t :=
  mk (bar self) (text self) (total_size self) current_time bytes_remaining.

(** Values passed to [bar.progress] in a log. *)
Definition progress_values (log : list SinkCall) : list Q :=
  flat_map (fun c => match c with BarProgress _ v => [v] | _ => [] end) log.

(** Whether a call of [on_progress] reached [self.bar.progress(...)]. *)
Definition emits (self : t) (current_time : Q) (bytes_remaining : Z) : bool :=
  match progress_values (Eff.calls (on_progress current_time bytes_remaining self)) with
  | [] => false
  | _ => true
  end.

(** Values of [int(pct*100)] shown by [text.markdown] in a log. *)
Definition text_percents (log : list SinkCall) : list Z :=
  flat_map (fun c => match c with TextMarkdown _ p _ _ _ => [p] | _ => [] end) log.

(** In a sequence of calls, the number of those that reach [bar.progress]
    with bytes remaining other than zero.  An exception leaves [on_progress]
    and the transfer that called it, so the sequence ends at the first call
    that raises. *)
Fixpoint unforced_emissions (self : t) (ticks : list (Q * Z)) : nat :=
  match ticks with
  | [] => 0%nat
  | (current_time, bytes_remaining) :: rest =>
      let o := on_progress current_time bytes_remaining self in
      let unforced := emits self current_time bytes_remaining
                      && negb (bytes_remaining =? 0) in
      let later := match Eff.result o with
                   | Ok _ => unforced_emissions (Eff.state o) rest
                   | Raise _ => 0%nat
                   end in
      ((if unforced then 1 else 0) + later)%nat
  end.

(** A call made within 50 ms after [start]. *)
Definition in_burst (start : Q) (tick : Q * Z) : Prop :=
  (start <= fst tick /\ fst tick <= start + (1 # 20))%Q.

End DownloadMonitor.

(** ** [sanitize_filename] *)

(** The character class of the pattern of line 87: the nine characters
    less-than, greater-than, colon, double quote (character 34), slash,
    backslash (character 92), vertical bar, question mark and star.  A Python
    string is a sequence of code points; here it is the sequence of bytes of
    its UTF-8 encoding, in which the nine characters of the class only stand
    for themselves. *)
Definition illegal_chars : list ascii :=
  ["<"; ">"; ":"; "034"; "/"; "092"; "|"; "?"; "*"]%char.

Definition is_illegal (c : ascii) : bool := existsb (Ascii.eqb c) illegal_chars.

(** [re.sub(pattern, '', name)]: every character of the class is removed. *)
Fixpoint sanitize_filename (name : string) : string :=
  match name with
  | EmptyString => EmptyString
  | String c rest =>
      if is_illegal c then sanitize_filename rest
      else String c (sanitize_filename rest)
  end.

(** ** Streams and the provider's queries *)

Module Stream.

(** The attributes of a pytubefix stream that the page reads.  [abr] is the
    number in the provider's bitrate text (128 for [128kbps]). *)
Record t : Type := mk {
  itag : nat;
  type : string;
  subtype : string;
  resolution : option string;
  abr : option nat;
  includes_video_track : bool;
  includes_audio_track : bool;
  filesize : Z;
  default_filename : string
}.

(** [is_progressive]: the stream carries both tracks. *)
Definition is_progressive (s : t) : bool :=
  includes_video_track s && includes_audio_track s.

End Stream.

(** pytubefix's [StreamQuery] is not part of this repository; its methods are
    modelled by what they are documented to do: [filter] keeps the streams
    that satisfy the criteria, [order_by] drops the streams without the
    attribute and sorts the others in ascending order (a stable sort),
    [desc] reverses and [first] is the head or [None]. *)
Module StreamQuery.

Definition filter (p : Stream.t -> bool) (q : list Stream.t) : list Stream.t :=
  List.filter p q.

Definition only_audio (s : Stream.t) : bool :=
  Stream.includes_audio_track s && negb (Stream.includes_video_track s).

Definition mp4_video (s : Stream.t) : bool :=
  String.eqb (Stream.subtype s) "mp4" && String.eqb (Stream.type s) "video".

Definition key_of (key : Stream.t -> option nat) (s : Stream.t) : nat :=
  match key s with Some k => k | None => 0%nat end.

Fixpoint insert_sorted (key : Stream.t -> option nat) (s : Stream.t)
    (sorted : list Stream.t) : list Stream.t :=
  match sorted with
  | [] => [s]
  | x :: rest =>
      if (key_of key s <? key_of key x)%nat then s :: x :: rest
      else x :: insert_sorted key s rest
  end.

Definition order_by (key : Stream.t -> option nat) (q : list Stream.t) : list Stream.t :=
  fold_left (fun acc s => insert_sorted key s acc)
            (List.filter (fun s => match key s with Some _ => true | None => false end) q)
            [].

(** A list in ascending order of the attribute. *)
Definition ascending (key : Stream.t -> option nat) : list Stream.t -> Prop :=
  StronglySorted (fun a b => (key_of key a <= key_of key b)%nat).

Definition desc (q : list Stream.t) : list Stream.t := rev q.

Definition first (q : list Stream.t) : option Stream.t := head q.

(** The number spelled by the digits of a text, as [order_by] reads a
    resolution such as [1080p]. *)
Definition digit_of (c : ascii) : option nat :=
  let n := nat_of_ascii c in
  if ((48 <=? n) && (n <=? 57))%nat then Some (n - 48)%nat else None.

Fixpoint digits_value (acc : nat) (s : string) : nat :=
  match s with
  | EmptyString => acc
  | String c rest =>
      match digit_of c with
      | Some d => digits_value (10 * acc + d)%nat rest
      | None => digits_value acc rest
      end
  end.

Definition resolution_key (s : Stream.t) : option nat :=
  match Stream.resolution s with
  | Some r => Some (digits_value 0 r)
  | None => None
  end.

End StreamQuery.

(** ** Step 2 of the page: the resolution options *)

Module Catalog.

(** Line 139. *)
Definition best_audio (streams : list Stream.t) : option Stream.t :=
  StreamQuery.first
    (StreamQuery.desc
       (StreamQuery.order_by Stream.abr
          (StreamQuery.filter StreamQuery.only_audio streams))).

(** Line 140. *)
Definition audio_size (best : option Stream.t) : Z :=
  match best with
  | Some a => Stream.filesize a
  | None => 0
  end.

(** Line 143. *)
Definition all_streams (streams : list Stream.t) : list Stream.t :=
  StreamQuery.desc
    (StreamQuery.order_by StreamQuery.resolution_key
       (StreamQuery.filter StreamQuery.mp4_video streams)).

(** A [dict] with text keys keeps its entries in insertion order: a list of
    entries with distinct keys. *)
Definition Dict (V : Type) : Type := list (string * V).

Fixpoint dict_get {V} (d : Dict V) (k : string) : option V :=
  match d with
  | [] => None
  | (k', v) :: rest => if String.eqb k k' then Some v else dict_get rest k
  end.

Definition dict_mem {V} (d : Dict V) (k : string) : bool :=
  match dict_get d k with Some _ => true | None => false end.

(** [d[k] = v] for a key that is not in [d] yet. *)
Definition dict_add {V} (d : Dict V) (k : string) (v : V) : Dict V := d ++ [(k, v)].

(** Truth value of [s.resolution]: [None] and the empty text are false. *)
Definition truthy (r : option string) : option string :=
  match r with
  | Some EmptyString => None
  | Some r' => Some r'
  | None => None
  end.

(** Lines 145-147, from a dictionary [resolutions]. *)
Fixpoint collect (all : list Stream.t) (resolutions : Dict Stream.t) : Dict Stream.t :=
  match all with
  | [] => resolutions
  | s :: rest =>
      match truthy (Stream.resolution s) with
      | Some r =>
          if negb (dict_mem resolutions r)
          then collect rest (dict_add resolutions r s)
          else collect rest resolutions
      | None => collect rest resolutions
      end
  end.

(** Lines 142-147. *)
Definition resolutions (all : list Stream.t) : Dict Stream.t := collect all [].

(** The first stream of a list whose resolution is [r]. *)
Definition first_with_resolution (r : string) (all : list Stream.t) : option Stream.t :=
  List.find (fun s => match Stream.resolution s with
                      | Some r' => String.eqb r r'
                      | None => false
                      end) all.

(** Line 149: [if not resolutions], the case in which the page shows the
    warning instead of the drop-down. *)
Definition no_suitable_streams (resolutions : Dict Stream.t) : bool :=
  match resolutions with
  | [] => true
  | _ :: _ => false
  end.

(** A label of the drop-down (lines 160 and 163): the resolution, the kind
    and the rendered size. *)
Record Label : Type := mkLabel {
  label_res : string;
  high_res : bool;
  size_text : FormatBytes.Rendered
}.

(** Lines 153-165; the labels start with the resolution, so they are
    distinct keys of [res_options]. *)
Fixpoint res_options (resolutions : Dict Stream.t) (audio_size : Z)
    : PyResult (list (Label * string)) :=
  match resolutions with
  | [] => Ok []
  | (res, stream) :: rest =>
      let is_adaptive := negb (Stream.is_progressive stream) in
      let est_size := if is_adaptive then Stream.filesize stream + audio_size
                      else Stream.filesize stream in
      match FormatBytes.format_bytes (inject_Z est_size) with
      | Raise e => Raise e
      | Ok text =>
          match res_options rest audio_size with
          | Raise e => Raise e
          | Ok options => Ok ((mkLabel res is_adaptive text, res) :: options)
          end
      end
  end.

End Catalog.

(** ** The page script: merge, downloads and clean-up *)

Module Page.

Import DownloadMonitor.
Local Open Scope eff_scope.

(** Texts shown to the user; [About prefix e] is [f"{prefix}{e}"] and
    [AtPath prefix p] is [f"{prefix}{p}"]. *)
Inductive Message : Type :=
| Plain (s : string)
| About (prefix : string) (e : PyExn)
| AtPath (prefix : string) (path : string).

(** What the script does that can be observed from outside: calls on the
    Streamlit module and widgets, transfers asked from the provider and
    processes spawned. *)
Inductive Event : Type :=
| FromMonitor (c : SinkCall)
| StError (m : Message)
| StSuccess (m : Message)
| StSpinner (s : string)
| StBalloons
| StatusText (w : Widget) (s : string)
| StatusMarkdown (w : Widget) (s : string)
| BarSet (w : Widget) (value : Z)
| ProviderTransfer (itag : nat) (file_path : string)
| Spawn (cmd : list string).

(** The state the script works on: the names of the files on disk and the
    monitor kept in [st.session_state]. *)
Record World : Type := mkWorld {
  files : gset string;
  monitor : DownloadMonitor.t
}.

Definition M (A : Type) : Type := Eff.t World Event A.

(** How [subprocess.run] ends: the process ran and exited, the executable
    was not found, or the spawn failed otherwise. *)
Inductive ProcessOutcome : Type :=
| Exited (returncode : Z)
| ExecutableMissing
| SpawnError (message : string).

(** How a transfer of the provider goes: it raises before the target file is
    opened, or the file is opened, [on_progress] is called with the clock
    reading and the bytes remaining after each chunk, and the transfer then
    completes or raises. *)
Inductive Transfer : Type :=
| Refused (e : PyExn)
| Streamed (ticks : list (Q * Z)) (failure : option PyExn).

(** The surroundings of one click on the download button. *)
Record Env : Type := mkEnv {
  home : string;
  run : list string -> gset string -> ProcessOutcome * gset string;
  first_clock : Q;
  first_transfer : Transfer;
  second_clock : Q;
  second_transfer : Transfer
}.

(** [os.path.join] on a POSIX system, for two components. *)
Definition starts_with_slash (s : string) : bool :=
  match s with
  | String c _ => Ascii.eqb c "/"
  | EmptyString => false
  end.

Fixpoint ends_with_slash (s : string) : bool :=
  match s with
  | EmptyString => false
  | String c EmptyString => Ascii.eqb c "/"
  | String _ rest => ends_with_slash rest
  end.

Definition os_path_join (a b : string) : string :=
  if starts_with_slash b then b
  else if ends_with_slash a || String.eqb a "" then String.append a b
  else String.append a (String.append "/" b).

(** [str(Path.home() / "Downloads")] *)
Definition get_download_folder (env : Env) : string :=
  os_path_join (home env) "Downloads".

(** [subprocess.run(cmd, check=True, ...)]: a non-zero exit status raises
    [CalledProcessError]. *)
Definition subprocess_run_check (env : Env) (cmd : list string) : M unit :=
  Eff.emit (Spawn cmd) ;;;
  w <- Eff.get ;;
  let '(outcome, files') := run env cmd (files w) in
  Eff.put (mkWorld files' (monitor w)) ;;;
  match outcome with
  | Exited 0 => Eff.ret tt
  | Exited code => Eff.raise (CalledProcessError code)
  | ExecutableMissing => Eff.raise FileNotFoundError
  | SpawnError message => Eff.raise (OtherException message)
  end.

(** Lines 89-106. *)
Definition merge_audio_video (env : Env) (video_path audio_path output_path : string)
    : M bool :=
  Eff.try_except
    (let cmd := ["ffmpeg"; "-y";
                 "-i"; video_path;
                 "-i"; audio_path;
                 "-c:v"; "copy";
                 "-c:a"; "aac";
                 output_path] in
     subprocess_run_check env cmd ;;;
     Eff.ret true)
    (fun e =>
       match e with
       | FileNotFoundError =>
           Eff.emit (StError (Plain "FFmpeg not found! Please install FFmpeg.")) ;;;
           Eff.ret false
       | _ =>
           Eff.emit (StError (About "Error merging files: " e)) ;;;
           Eff.ret false
       end).

(** What [merge_audio_video] shows for each way the spawn can end. *)
Definition merge_report (outcome : ProcessOutcome) : list Event :=
  match outcome with
  | Exited 0 => []
  | Exited code => [StError (About "Error merging files: " (CalledProcessError code))]
  | ExecutableMissing => [StError (Plain "FFmpeg not found! Please install FFmpeg.")]
  | SpawnError message =>
      [StError (About "Error merging files: " (OtherException message))]
  end.

Definition merge_success (outcome : ProcessOutcome) : bool :=
  match outcome with
  | Exited 0 => true
  | _ => false
  end.

(** A computation of the monitor, run on the monitor of the world. *)
Definition with_monitor {A} (m : DownloadMonitor.M A) : M A :=
  fun w =>
    let o := m (monitor w) in
    Eff.mkOutcome (mkWorld (files w) (Eff.state o))
                  (map FromMonitor (Eff.calls o))
                  (Eff.result o).

(** [stream.download(output_path=..., filename_prefix=...)] or
    [stream.download(output_path=..., filename=...)]. *)
Inductive Naming : Type :=
| Prefix (p : string)
| Filename (f : string).

Definition target_name (s : Stream.t) (n : Naming) : string :=
  match n with
  | Prefix p => String.append p (Stream.default_filename s)
  | Filename f => f
  end.

Definition create_file (path : string) : M unit :=
  w <- Eff.get ;;
  Eff.put (mkWorld ({[ path ]} ∪ files w) (monitor w)).

Definition download (s : Stream.t) (output_path : string) (n : Naming)
    (tr : Transfer) : M string :=
  let file_path := os_path_join output_path (target_name s n) in
  match tr with
  | Refused e => Eff.raise e
  | Streamed ticks failure =>
      Eff.emit (ProviderTransfer (Stream.itag s) file_path) ;;;
      create_file file_path ;;;
      with_monitor (on_progress_all ticks) ;;;
      match failure with
      | Some e => Eff.raise e
      | None => Eff.ret file_path
      end
  end.

(** [best_audio.download(...)] when [best_audio] may be [None]. *)
Definition download_of (s : option Stream.t) (output_path : string) (n : Naming)
    (tr : Transfer) : M string :=
  match s with
  | Some a => download a output_path n tr
  | None => Eff.raise (AttributeError "download")
  end.

(** [if os.path.exists(path): os.remove(path)] *)
Definition remove_if_exists (path : string) : M unit :=
  w <- Eff.get ;;
  if bool_decide (path ∈ files w)
  then Eff.put (mkWorld (files w ∖ {[ path ]}) (monitor w))
  else Eff.ret tt.

(** Lines 196-208: the merge, the clean-up of the two downloaded files and
    the messages of a successful merge. *)
Definition merge_and_cleanup (env : Env) (status_text progress_bar : Widget)
    (video_path audio_path final_path : string) : M unit :=
  Eff.emit (StSpinner "Phase 3/3: Merging Audio & Video (this may take a moment)...") ;;;
  success <- merge_audio_video env video_path audio_path final_path ;;
  remove_if_exists video_path ;;;
  remove_if_exists audio_path ;;;
  if success : bool then
    Eff.emit (BarSet progress_bar 100) ;;;
    Eff.emit (StatusMarkdown status_text "### Download Complete!") ;;;
    Eff.emit (StSuccess (AtPath "Saved to: " final_path)) ;;;
    Eff.emit StBalloons
  else Eff.ret tt.

(** Lines 175-221: what a click on the download button does.
    [status_text] and [progress_bar] are the elements of lines 177-178. *)
Definition download_clicked (env : Env) (status_text progress_bar : Widget)
    (selected_stream : Stream.t) (best_audio : option Stream.t) (audio_size : Z)
    : M unit :=
  let is_adaptive := negb (Stream.is_progressive selected_stream) in
  let save_path := get_download_folder env in
  let clean_filename := sanitize_filename (Stream.default_filename selected_stream) in
  let final_path := os_path_join save_path clean_filename in
  Eff.try_except
    (if is_adaptive then
       with_monitor (set_ui progress_bar status_text
                       (Stream.filesize selected_stream) (first_clock env)) ;;;
       Eff.emit (StatusText status_text "Phase 1/3: Downloading Video Track...") ;;;
       video_path <- download selected_stream save_path (Prefix "temp_video_")
                       (first_transfer env) ;;
       with_monitor (set_ui progress_bar status_text audio_size (second_clock env)) ;;;
       Eff.emit (StatusText status_text "Phase 2/3: Downloading Audio Track...") ;;;
       audio_path <- download_of best_audio save_path (Prefix "temp_audio_")
                       (second_transfer env) ;;
       merge_and_cleanup env status_text progress_bar video_path audio_path final_path
     else
       with_monitor (set_ui progress_bar status_text
                       (Stream.filesize selected_stream) (first_clock env)) ;;;
       Eff.emit (StatusText status_text "Downloading Standard Stream...") ;;;
       out_file <- download selected_stream save_path (Filename clean_filename)
                     (first_transfer env) ;;
       Eff.emit (BarSet progress_bar 100) ;;;
       Eff.emit (StatusMarkdown status_text "### Download Complete!") ;;;
       Eff.emit (StSuccess (AtPath "Saved to: " out_file)) ;;;
       Eff.emit StBalloons)
    (fun e => Eff.emit (StError (About "Error: " e))).

(** The options the page shows for the streams of a video (lines 139-165). *)
Definition offered (streams : list Stream.t) : PyResult (list (Catalog.Label * string)) :=
  Catalog.res_options
    (Catalog.resolutions (Catalog.all_streams streams))
    (Catalog.audio_size (Catalog.best_audio streams)).

(** Lines 168-221 for the resolution the user selected among the options. *)
Definition select_and_download (env : Env) (status_text progress_bar : Widget)
    (streams : list Stream.t) (selected_res : string) : M unit :=
  match Catalog.dict_get (Catalog.resolutions (Catalog.all_streams streams)) selected_res with
  | Some selected_stream =>
      download_clicked env status_text progress_bar selected_stream
        (Catalog.best_audio streams)
        (Catalog.audio_size (Catalog.best_audio streams))
  | None => Eff.raise (KeyError (TextKey selected_res))
  end.

(** The names in a directory that carry one of the two temporary prefixes. *)
Definition is_temporary (save_path path : string) : bool :=
  String.prefix (os_path_join save_path "temp_video_") path
  || String.prefix (os_path_join save_path "temp_audio_") path.

End Page.

(** * Laws of the computations *)

Section EffFacts.

Context {S E : Type}.

Lemma bind_eq {A B} (m : Eff.t S E A) (k : A -> Eff.t S E B) (s : S) :
  Eff.bind m k s =
  match Eff.result (m s) with
  | Ok a =>
      Eff.mkOutcome (Eff.state (k a (Eff.state (m s))))
        (Eff.calls (m s) ++ Eff.calls (k a (Eff.state (m s))))
        (Eff.result (k a (Eff.state (m s))))
  | Raise e => Eff.mkOutcome (Eff.state (m s)) (Eff.calls (m s)) (Raise e)
  end.
Proof. reflexivity. Qed.

Lemma bind_ret {A B} (a : A) (k : A -> Eff.t S E B) (s : S) :
  Eff.bind (Eff.ret a) k s = k a s.
Proof. unfold Eff.bind, Eff.ret. cbn. destruct (k a s). reflexivity. Qed.

Lemma bind_get {B} (k : S -> Eff.t S E B) (s : S) :
  Eff.bind Eff.get k s = k s s.
Proof. unfold Eff.bind, Eff.get. cbn. destruct (k s s). reflexivity. Qed.

Lemma bind_lift_ok {A B} (a : A) (k : A -> Eff.t S E B) (s : S) :
  Eff.bind (Eff.lift (Ok a)) k s = k a s.
Proof. unfold Eff.bind, Eff.lift. cbn. destruct (k a s). reflexivity. Qed.

Lemma bind_lift_raise {A B} (e : PyExn) (k : A -> Eff.t S E B) (s : S) :
  Eff.bind (Eff.lift (Raise e)) k s = Eff.mkOutcome s [] (Raise e).
Proof. reflexivity. Qed.

Lemma bind_raise {A B} (e : PyExn) (k : A -> Eff.t S E B) (s : S) :
  Eff.bind (Eff.raise e) k s = Eff.mkOutcome s [] (Raise e).
Proof. reflexivity. Qed.

Lemma bind_emit {B} (c : E) (k : unit -> Eff.t S E B) (s : S) :
  Eff.bind (Eff.emit c) k s =
  Eff.mkOutcome (Eff.state (k tt s)) (c :: Eff.calls (k tt s)) (Eff.result (k tt s)).
Proof. reflexivity. Qed.

End EffFacts.

(** * Properties of [format_bytes] *)

Section FormatBytesFacts.

Import FormatBytes.
Local Open Scope Q_scope.

Lemma power_value : power == 1024.
Proof. reflexivity. Qed.

Lemma pow2_succ (f : nat) :
  inject_Z (2 ^ Z.of_nat (S f)) == 2 * inject_Z (2 ^ Z.of_nat f).
Proof.
  rewrite Nat2Z.inj_succ, Z.pow_succ_r by lia.
  rewrite inject_Z_mult. reflexivity.
Qed.

Lemma pow2_pos (f : nat) : 0 < inject_Z (2 ^ Z.of_nat f).
Proof.
  change 0 with (inject_Z 0). rewrite <- Zlt_Qlt.
  apply Z.pow_pos_nonneg; lia.
Qed.

(** With enough fuel the loop leaves by its guard: the size it returns is
    not above [power]. *)
Lemma scale_exit (fuel : nat) : forall (size : Q) (n : nat),
  size <= inject_Z (2 ^ Z.of_nat fuel) ->
  fst (scale fuel size n) <= power.
Proof.
  induction fuel as [|f IH]; intros size n Hle; cbn [scale].
  - change (inject_Z (2 ^ Z.of_nat 0)) with 1 in Hle. cbn [fst].
    rewrite power_value. lra.
  - destruct (Qlt_le_dec power size) as [Hgt|Hle']; cbn [fst]; [|exact Hle'].
    apply IH. rewrite pow2_succ in Hle.
    pose proof (pow2_pos f) as Hpos. rewrite power_value in *.
    apply Qle_shift_div_r; lra.
Qed.

Lemma scale_fuel_enough (size : Q) :
  size <= inject_Z (2 ^ Z.of_nat (scale_fuel size)).
Proof.
  unfold scale_fuel.
  rewrite Z2Nat.id by apply Z.log2_up_nonneg.
  apply Qle_trans with (inject_Z (Qceiling size)); [apply Qle_ceiling|].
  rewrite <- Zle_Qle.
  destruct (Z_lt_le_dec 1 (Qceiling size)) as [H|H].
  - apply Z.log2_up_spec. exact H.
  - rewrite Z.log2_up_eqn0 by exact H. cbn. lia.
Qed.

(** More fuel than needed does not change the result. *)
Lemma scale_more_fuel (fuel : nat) : forall (extra : nat) (size : Q) (n : nat),
  size <= inject_Z (2 ^ Z.of_nat fuel) ->
  scale (fuel + extra) size n = scale fuel size n.
Proof.
  induction fuel as [|f IH]; intros extra size n Hle.
  - change (inject_Z (2 ^ Z.of_nat 0)) with 1 in Hle.
    destruct extra as [|k]; [reflexivity|]. cbn [Nat.add scale].
    destruct (Qlt_le_dec power size) as [Hgt|_]; [|reflexivity].
    rewrite power_value in Hgt. lra.
  - cbn [Nat.add scale]. destruct (Qlt_le_dec power size) as [Hgt|_]; [|reflexivity].
    apply IH. rewrite pow2_succ in Hle.
    pose proof (pow2_pos f) as Hpos. rewrite power_value in *.
    apply Qle_shift_div_r; lra.
Qed.

(** The loop divides by [power] once per step it counts. *)
Lemma scale_value (fuel : nat) : forall (size : Q) (n : nat),
  (n <= snd (scale fuel size n))%nat /\
  fst (scale fuel size n) * power ^ Z.of_nat (snd (scale fuel size n) - n) == size.
Proof.
  induction fuel as [|f IH]; intros size n; cbn [scale].
  - cbn [fst snd]. split; [lia|]. rewrite Nat.sub_diag.
    change (power ^ Z.of_nat 0) with 1. lra.
  - destruct (Qlt_le_dec power size) as [Hgt|Hle]; cbn [fst snd].
    + destruct (IH (size / power) (S n)) as [Hn Hv].
      set (r := scale f (size / power) (S n)) in *.
      split; [lia|].
      replace (snd r - n)%nat with (S (snd r - S n)) by lia.
      rewrite Nat2Z.inj_succ. unfold Z.succ.
      rewrite Qpower_plus by (rewrite power_value; lra).
      rewrite Qmult_assoc, Hv. change (power ^ 1) with power.
      field. rewrite power_value. lra.
    + split; [lia|]. rewrite Nat.sub_diag.
      change (power ^ Z.of_nat 0) with 1. lra.
Qed.

Lemma power_labels_ok (n : nat) (l : string) :
  power_labels n = Ok l -> unit_exponent l = Z.of_nat n /\ (n <= 4)%nat.
Proof.
  destruct n as [|[|[|[|[|n]]]]]; cbn; intros H; inversion H; subst; split; (reflexivity || lia).
Qed.

Lemma power_labels_raise (n : nat) (e : PyExn) :
  power_labels n = Raise e -> e = KeyError (IntKey n) /\ (5 <= n)%nat.
Proof.
  destruct n as [|[|[|[|[|n]]]]]; cbn; intros H; inversion H; subst; split; (reflexivity || lia).
Qed.

(** [format_bytes] returns a text that stands for the size it was given,
    with a mantissa that is not above 1024. *)
Lemma format_bytes_ok (size : Q) (r : Rendered) :
  format_bytes size = Ok r ->
  denotes r == size /\ mantissa r <= power.
Proof.
  unfold format_bytes, denotes.
  pose proof (scale_value (scale_fuel size) size 0) as [_ Hv].
  pose proof (scale_exit (scale_fuel size) size 0 (scale_fuel_enough size)) as Hx.
  destruct (scale (scale_fuel size) size 0) as [s n]. cbn [fst snd] in *.
  destruct (power_labels n) as [l|e] eqn:El; intros H; inversion H; subst; clear H.
  cbn [mantissa label]. apply power_labels_ok in El as [-> _].
  rewrite Nat.sub_0_r in Hv. split; assumption.
Qed.

(** The only exception of [format_bytes] is the [KeyError] of a size above
    1024 to the fifth. *)
Lemma format_bytes_raise (size : Q) (e : PyExn) :
  format_bytes size = Raise e -> exists n, e = KeyError (IntKey n) /\ (5 <= n)%nat.
Proof.
  unfold format_bytes. destruct (scale _ _ _) as [s n].
  destruct (power_labels n) as [l|e'] eqn:El; intros H; inversion H; subst.
  exists n. apply power_labels_raise. exact El.
Qed.

Lemma format_bytes_small (size : Q) :
  size <= 1 -> format_bytes size = Ok (mkRendered size "").
Proof.
  intros H. unfold format_bytes, scale_fuel.
  assert (Hc : (Qceiling size <= 1)%Z).
  { apply Z.le_trans with (Qceiling 1); [apply Qceiling_resp_le; exact H|]. now vm_compute. }
  rewrite Z.log2_up_eqn0 by exact Hc. reflexivity.
Qed.

End FormatBytesFacts.

(** * Properties of [DownloadMonitor] *)

Section MonitorFacts.

Import FormatBytes DownloadMonitor.

(** The division of line 57 is guarded: it never raises. *)
Lemma truediv_pct (self : t) (br : Z) :
  (if 0 <? total_size self
   then py_truediv (inject_Z (total_size self - br)) (inject_Z (total_size self))
   else Ok 0%Q) = Ok (pct_of self br).
Proof.
  unfold pct_of, py_truediv. destruct (0 <? total_size self) eqn:E; [|reflexivity].
  apply Z.ltb_lt in E.
  destruct (Qeq_dec (inject_Z (total_size self)) 0) as [H|H]; [|reflexivity].
  exfalso. unfold Qeq in H. cbn in H. lia.
Qed.

(** So is the division of line 65. *)
Lemma truediv_speed (self : t) (now : Q) (br : Z) :
  (if Qlt_le_dec 0 (now - last_time self)
   then py_truediv (inject_Z (last_bytes self - br)) (now - last_time self)
   else Ok 0%Q) = Ok (speed_of self now br).
Proof.
  unfold speed_of, py_truediv.
  destruct (Qlt_le_dec 0 (now - last_time self)) as [H|H]; [|reflexivity].
  destruct (Qeq_dec (now - last_time self) 0) as [H0|H0]; [|reflexivity].
  exfalso. rewrite H0 in H. exact (Qlt_irrefl 0 H).
Qed.

Lemma due_iff (self : t) (now : Q) (br : Z) :
  due self now br = true <-> ((1 # 10) < now - last_time self)%Q \/ br = 0.
Proof.
  unfold due. rewrite orb_true_iff, Z.eqb_eq.
  destruct (Qlt_le_dec (1 # 10) (now - last_time self)) as [H|H]; split; intros [H'|H'];
    auto; try discriminate.
  exfalso. apply (Qlt_irrefl (1 # 10)). eapply Qlt_le_trans; eassumption.
Qed.

Lemma on_progress_unattached (self : t) (now : Q) (br : Z) :
  bar self = None -> on_progress now br self = Eff.mkOutcome self [] (Ok tt).
Proof.
  intros H. unfold on_progress. rewrite bind_get, H. reflexivity.
Qed.

Lemma on_progress_not_due (self : t) (now : Q) (br : Z) :
  due self now br = false -> on_progress now br self = Eff.mkOutcome self [] (Ok tt).
Proof.
  intros H. unfold on_progress. rewrite bind_get, H.
  destruct (bar self); reflexivity.
Qed.

(** A call that is due on an attached monitor, statement by statement. *)
Lemma on_progress_due_eq (self : t) (b : Widget) (now : Q) (br : Z) :
  bar self = Some b -> due self now br = true ->
  on_progress now br self =
  let first := BarProgress b (py_min (pct_of self br) 1) in
  match text self with
  | None => Eff.mkOutcome self [first] (Raise (AttributeError "markdown"))
  | Some txt =>
      match format_bytes (inject_Z (total_size self - br)) with
      | Raise e => Eff.mkOutcome self [first] (Raise e)
      | Ok r_done =>
          match format_bytes (inject_Z (total_size self)) with
          | Raise e => Eff.mkOutcome self [first] (Raise e)
          | Ok r_total =>
              match format_bytes (speed_of self now br) with
              | Raise e => Eff.mkOutcome self [first] (Raise e)
              | Ok r_speed =>
                  Eff.mkOutcome (updated self now br)
                    [first;
                     TextMarkdown txt (py_int (pct_of self br * 100))
                       r_done r_total r_speed]
                    (Ok tt)
              end
          end
      end
  end.
Proof.
  intros Hb Hd. unfold on_progress.
  rewrite bind_get, Hb, Hd, truediv_pct, bind_lift_ok, truediv_speed, bind_lift_ok.
  rewrite bind_emit. cbv zeta.
  destruct (text self) as [txt|] eqn:Ht; cbn [attr_of].
  2:{ rewrite bind_raise. reflexivity. }
  rewrite bind_ret.
  destruct (format_bytes (inject_Z (total_size self - br)));
    [rewrite bind_lift_ok|rewrite bind_lift_raise; reflexivity].
  destruct (format_bytes (inject_Z (total_size self)));
    [rewrite bind_lift_ok|rewrite bind_lift_raise; reflexivity].
  destruct (format_bytes (speed_of self now br));
    [rewrite bind_lift_ok|rewrite bind_lift_raise; reflexivity].
  rewrite bind_emit. unfold updated. rewrite Hb, Ht. reflexivity.
Qed.

(** A call that is due on an attached monitor first calls [bar.progress];
    then it either raises (no text element, or a size that [format_bytes]
    has no label for) and leaves the monitor as it was, or calls
    [text.markdown] and stores the current time and bytes. *)
Lemma on_progress_due (self : t) (b : Widget) (now : Q) (br : Z) :
  bar self = Some b -> due self now br = true ->
  (exists e, on_progress now br self
             = Eff.mkOutcome self [BarProgress b (py_min (pct_of self br) 1)] (Raise e)
             /\ e <> ZeroDivisionError)
  \/ (exists txt r_done r_total r_speed,
        text self = Some txt
        /\ format_bytes (inject_Z (total_size self - br)) = Ok r_done
        /\ format_bytes (inject_Z (total_size self)) = Ok r_total
        /\ format_bytes (speed_of self now br) = Ok r_speed
        /\ on_progress now br self =
           Eff.mkOutcome (updated self now br)
             [BarProgress b (py_min (pct_of self br) 1);
              TextMarkdown txt (py_int (pct_of self br * 100)) r_done r_total r_speed]
             (Ok tt)).
Proof.
  intros Hb Hd. rewrite (on_progress_due_eq self b now br Hb Hd). cbv zeta.
  destruct (text self) as [txt|].
  2:{ left. eexists. split; [reflexivity|discriminate]. }
  destruct (format_bytes (inject_Z (total_size self - br))) as [r1|e1] eqn:E1.
  2:{ left. eexists. split; [reflexivity|].
      apply format_bytes_raise in E1 as (n & -> & _). discriminate. }
  destruct (format_bytes (inject_Z (total_size self))) as [r2|e2] eqn:E2.
  2:{ left. eexists. split; [reflexivity|].
      apply format_bytes_raise in E2 as (n & -> & _). discriminate. }
  destruct (format_bytes (speed_of self now br)) as [r3|e3] eqn:E3.
  2:{ left. eexists. split; [reflexivity|].
      apply format_bytes_raise in E3 as (n & -> & _). discriminate. }
  right. exists txt, r1, r2, r3. auto.
Qed.

Lemma emits_iff (self : t) (now : Q) (br : Z) :
  emits self now br = true <-> (exists b, bar self = Some b) /\ due self now br = true.
Proof.
  unfold emits. destruct (bar self) as [b|] eqn:Hb.
  - destruct (due self now br) eqn:Hd.
    + destruct (on_progress_due self b now br Hb Hd)
        as [(e & -> & _)|(txt & r1 & r2 & r3 & _ & _ & _ & _ & ->)];
        cbn; split; eauto.
    + rewrite (on_progress_not_due self now br Hd). cbn. split; [discriminate|].
      intros [_ H]; discriminate.
  - rewrite (on_progress_unattached self now br Hb). cbn. split; [discriminate|].
    intros [[b H] _]; discriminate.
Qed.

(** The three ways a call of [on_progress] can go. *)
Lemma on_progress_cases (self : t) (now : Q) (br : Z) :
  (on_progress now br self = Eff.mkOutcome self [] (Ok tt)
   /\ emits self now br = false)
  \/ (exists e, Eff.result (on_progress now br self) = Raise e
                /\ Eff.state (on_progress now br self) = self
                /\ emits self now br = true)
  \/ (Eff.result (on_progress now br self) = Ok tt
      /\ Eff.state (on_progress now br self) = updated self now br
      /\ emits self now br = true).
Proof.
  destruct (bar self) as [b|] eqn:Hb.
  - destruct (due self now br) eqn:Hd.
    + pose proof (proj2 (emits_iff self now br) (conj (ex_intro _ b Hb) Hd)) as He.
      right.
      destruct (on_progress_due self b now br Hb Hd)
        as [(e & Ho & _)|(txt & r1 & r2 & r3 & _ & _ & _ & _ & Ho)]; rewrite Ho; cbn.
      * left. exists e. auto.
      * right. auto.
    + left. split; [apply on_progress_not_due; exact Hd|].
      destruct (emits self now br) eqn:He; [|reflexivity].
      apply emits_iff in He as [_ He]. congruence.
  - left. split; [apply on_progress_unattached; exact Hb|].
    destruct (emits self now br) eqn:He; [|reflexivity].
    apply emits_iff in He as [[b He] _]. congruence.
Qed.

Lemma on_progress_all_cons (now : Q) (br : Z) (rest : list (Q * Z)) (self : t) :
  on_progress_all ((now, br) :: rest) self =
  let o := on_progress now br self in
  match Eff.result o with
  | Ok _ =>
      let o' := on_progress_all rest (Eff.state o) in
      Eff.mkOutcome (Eff.state o') (Eff.calls o ++ Eff.calls o') (Eff.result o')
  | Raise e => Eff.mkOutcome (Eff.state o) (Eff.calls o) (Raise e)
  end.
Proof. reflexivity. Qed.

Lemma py_min_le_1 (a : Q) : (py_min a 1 <= 1)%Q.
Proof. unfold py_min. destruct (Qlt_le_dec 1 a); lra. Qed.

Lemma py_min_ge_0 (a : Q) : (0 <= a)%Q -> (0 <= py_min a 1)%Q.
Proof. unfold py_min. destruct (Qlt_le_dec 1 a); lra. Qed.

End MonitorFacts.

(** ** No call before [set_ui] has an effect *)

Section Unattached.

Import DownloadMonitor.

Lemma on_progress_all_unattached (ticks : list (Q * Z)) (self : t) :
  bar self = None -> on_progress_all ticks self = Eff.mkOutcome self [] (Ok tt).
Proof.
  intros Hb. induction ticks as [|[now br] rest IH]; [reflexivity|].
  rewrite on_progress_all_cons, (on_progress_unattached self now br Hb). cbn.
  rewrite IH. reflexivity.
Qed.

(** C10: while no progress bar is attached (the [bar] field still holds
    [None], as after [__init__]), a call of [on_progress], and any sequence of
    such calls, makes no call on a widget, returns normally and leaves every
    field of the monitor as it was. *)
Theorem on_progress_before_set_ui
    (txt : option Widget) (total : Z) (time : Q) (bytes : Z)
    (now : Q) (br : Z) (ticks : list (Q * Z)) :
  let self := mk None txt total time bytes in
  on_progress now br self = Eff.mkOutcome self [] (Ok tt)
  /\ on_progress_all ticks self = Eff.mkOutcome self [] (Ok tt)
  /\ on_progress now br init = Eff.mkOutcome init [] (Ok tt)
  /\ on_progress_all ticks init = Eff.mkOutcome init [] (Ok tt).
Proof.
  intros self. split; [|split; [|split]].
  - apply on_progress_unattached. reflexivity.
  - apply on_progress_all_unattached. reflexivity.
  - apply on_progress_unattached. reflexivity.
  - apply on_progress_all_unattached. reflexivity.
Qed.

End Unattached.

(** ** A phase of zero bytes *)

Section ZeroTotal.

Import FormatBytes DownloadMonitor.

Lemma pct_of_zero_total (self : t) (br : Z) :
  total_size self = 0 -> pct_of self br = 0%Q.
Proof. intros H. unfold pct_of. rewrite H. reflexivity. Qed.

Lemma zero_total_call (self : t) (now : Q) (br : Z) :
  total_size self = 0 ->
  let o := on_progress now br self in
  Forall (fun v => v = 0%Q) (progress_values (Eff.calls o))
  /\ Forall (fun p => p = 0) (text_percents (Eff.calls o))
  /\ Eff.result o <> Raise ZeroDivisionError
  /\ total_size (Eff.state o) = 0.
Proof.
  intros H0 o. subst o.
  destruct (bar self) as [b|] eqn:Hb.
  - destruct (due self now br) eqn:Hd.
    + destruct (on_progress_due self b now br Hb Hd)
        as [(e & -> & Hne)|(txt & r1 & r2 & r3 & _ & _ & _ & _ & ->)];
        rewrite (pct_of_zero_total self br H0); cbn;
        repeat split; auto; try congruence; try discriminate.
    + rewrite (on_progress_not_due self now br Hd). cbn.
      repeat split; auto; discriminate.
  - rewrite (on_progress_unattached self now br Hb). cbn.
    repeat split; auto; discriminate.
Qed.

Lemma zero_total_all (ticks : list (Q * Z)) : forall self : t,
  total_size self = 0 ->
  let o := on_progress_all ticks self in
  Forall (fun v => v = 0%Q) (progress_values (Eff.calls o))
  /\ Forall (fun p => p = 0) (text_percents (Eff.calls o))
  /\ Eff.result o <> Raise ZeroDivisionError.
Proof.
  induction ticks as [|[now br] rest IH]; intros self H0.
  - cbn. repeat split; auto; discriminate.
  - cbv zeta. rewrite on_progress_all_cons. cbv zeta.
    destruct (zero_total_call self now br H0) as (Hv & Hp & Hr & Ht).
    destruct (Eff.result (on_progress now br self)) as [[]|e] eqn:Er.
    + destruct (IH _ Ht) as (Hv' & Hp' & Hr').
      cbn [Eff.calls Eff.result]. unfold progress_values, text_percents in *.
      rewrite !flat_map_app. repeat split; try apply Forall_app; auto.
    + cbn [Eff.calls Eff.result]. auto.
Qed.

(** C7: with a total of zero bytes (as stored by [set_ui] for a phase of
    size 0), every value that a sequence of [on_progress] calls passes to
    [bar.progress] is 0, every percentage shown is 0, and no call raises
    [ZeroDivisionError]; and after [set_ui] with total 0, [on_progress] with 0
    bytes remaining does emit: it passes exactly the value 0 to
    [bar.progress], shows 0 percent and returns normally. *)
Theorem zero_total_reports_zero
    (b txt : option Widget) (time : Q) (bytes : Z) (ticks : list (Q * Z))
    (bar_w text_w : Widget) (start now : Q) :
  let o := on_progress_all ticks (mk b txt 0 time bytes) in
  let first := on_progress now 0 (Eff.state (set_ui bar_w text_w 0 start init)) in
  Forall (fun v => v = 0%Q) (progress_values (Eff.calls o))
  /\ Forall (fun p => p = 0) (text_percents (Eff.calls o))
  /\ Eff.result o <> Raise ZeroDivisionError
  /\ progress_values (Eff.calls first) = [0%Q]
  /\ text_percents (Eff.calls first) = [0]
  /\ Eff.result first = Ok tt.
Proof.
  intros o first.
  destruct (zero_total_all ticks (mk b txt 0 time bytes) eq_refl) as (Hv & Hp & Hr).
  split; [exact Hv|]. split; [exact Hp|]. split; [exact Hr|].
  subst first. cbn [set_ui Eff.put Eff.state].
  set (self := mk (Some bar_w) (Some text_w) 0 start 0).
  assert (Hd : due self now 0 = true) by (apply due_iff; right; reflexivity).
  rewrite (on_progress_due_eq self bar_w now 0 eq_refl Hd). cbv zeta.
  cbn [text self total_size Z.sub].
  change (inject_Z (0 - 0)) with 0%Q. change (inject_Z 0) with 0%Q.
  rewrite (format_bytes_small 0%Q) by lra.
  assert (Hs : (speed_of self now 0 <= 1)%Q).
  { unfold speed_of. destruct (Qlt_le_dec 0 (now - last_time self)); [|lra].
    cbn [last_bytes self Z.sub]. change (inject_Z (0 - 0)) with 0%Q.
    unfold Qdiv. rewrite Qmult_0_l. lra. }
  rewrite (format_bytes_small _ Hs). cbn. auto.
Qed.

End ZeroTotal.

(** ** The range of the value passed to [bar.progress] *)

Section ProgressRange.

Import FormatBytes DownloadMonitor.

(** Every value passed to [bar.progress] is [min(pct, 1.0)]. *)
Lemma progress_values_call (self : t) (now : Q) (br : Z) :
  progress_values (Eff.calls (on_progress now br self)) = []
  \/ progress_values (Eff.calls (on_progress now br self)) = [py_min (pct_of self br) 1].
Proof.
  destruct (bar self) as [b|] eqn:Hb.
  - destruct (due self now br) eqn:Hd.
    + right. destruct (on_progress_due self b now br Hb Hd)
        as [(e & -> & _)|(txt & r1 & r2 & r3 & _ & _ & _ & _ & ->)]; reflexivity.
    + left. rewrite (on_progress_not_due self now br Hd). reflexivity.
  - left. rewrite (on_progress_unattached self now br Hb). reflexivity.
Qed.

(** The upper bound holds for every call; the lower bound holds when the
    bytes remaining do not exceed the total. *)
Lemma progress_values_bounds (self : t) (now : Q) (br : Z) :
  Forall (fun v => (v <= 1)%Q) (progress_values (Eff.calls (on_progress now br self)))
  /\ (br <= total_size self ->
      Forall (fun v => (0 <= v)%Q) (progress_values (Eff.calls (on_progress now br self)))).
Proof.
  destruct (progress_values_call self now br) as [->| ->].
  - split; constructor.
  - split; [repeat constructor; apply py_min_le_1|].
    intros Hle. repeat constructor. apply py_min_ge_0.
    unfold pct_of. destruct (0 <? total_size self) eqn:E; [|lra].
    apply Z.ltb_lt in E. apply Qle_shift_div_l.
    + change 0%Q with (inject_Z 0). rewrite <- Zlt_Qlt. exact E.
    + rewrite Qmult_0_l. change 0%Q with (inject_Z 0). rewrite <- Zle_Qle. lia.
Qed.

(** C2, at an input where it fails: after [set_ui] with a total of 100 bytes
    at time 10, the call [on_progress] at time 11 with 150 bytes remaining
    passes [min(-0.5, 1.0)], that is -0.5, to [bar.progress]: the value is
    only clamped from above. *)
Theorem on_progress_negative_progress :
  let self := Eff.state (set_ui (mkWidget 1) (mkWidget 0) 100 10%Q init) in
  progress_values (Eff.calls (on_progress 11%Q 150 self)) = [(-50 # 100)%Q]
  /\ ((-50 # 100) < 0)%Q.
Proof. split; [vm_compute; reflexivity|reflexivity]. Qed.

End ProgressRange.

(** ** When a call emits *)

Section Throttle.

Import FormatBytes DownloadMonitor.

(** C3 as stated fails before [set_ui]: on the monitor of [__init__], a call
    at time 5 with 0 bytes remaining satisfies both conditions of the rule
    and emits nothing. *)
Lemma emission_rule_fails_unattached :
  ~ (emits init 5%Q 0 = true <-> ((1 # 10) < 5 - last_time init)%Q \/ 0 = 0).
Proof.
  intros [_ H]. assert (E : emits init 5%Q 0 = true) by (apply H; right; reflexivity).
  vm_compute in E. discriminate.
Qed.

Lemma updated_last_time (self : t) (now : Q) (br : Z) :
  last_time (updated self now br) = now.
Proof. reflexivity. Qed.

(** Once the stored time lies in the burst, no later call of the burst
    emits unless it is forced. *)
Lemma burst_quiet (start : Q) (ticks : list (Q * Z)) : forall self : t,
  Forall (in_burst start) ticks ->
  (start <= last_time self)%Q ->
  unforced_emissions self ticks = 0%nat.
Proof.
  induction ticks as [|[now br] rest IH]; intros self Hin Hlast; [reflexivity|].
  inversion Hin as [|? ? [Hlo Hhi] Hrest]; subst. cbn [fst] in Hlo, Hhi.
  cbn [unforced_emissions]. cbv zeta.
  assert (Hnone : emits self now br && negb (br =? 0) = false).
  { destruct (emits self now br) eqn:He; [|reflexivity].
    destruct (br =? 0) eqn:Hz; [reflexivity|]. exfalso.
    apply emits_iff in He as [_ Hd]. apply due_iff in Hd as [Hd|Hd].
    - lra.
    - apply Z.eqb_neq in Hz. contradiction. }
  rewrite Hnone. cbn [Nat.add].
  destruct (on_progress_cases self now br)
    as [[-> _]|[(e & -> & _ & _)|(-> & -> & _)]]; cbn [Eff.result Eff.state].
  - apply IH; assumption.
  - reflexivity.
  - apply IH; [assumption|]. rewrite updated_last_time. exact Hlo.
Qed.

Lemma burst_at_most_one (start : Q) (ticks : list (Q * Z)) : forall self : t,
  Forall (in_burst start) ticks ->
  (unforced_emissions self ticks <= 1)%nat.
Proof.
  induction ticks as [|[now br] rest IH]; intros self Hin; [cbn; lia|].
  inversion Hin as [|? ? [Hlo Hhi] Hrest]; subst. cbn [fst] in Hlo, Hhi.
  cbn [unforced_emissions]. cbv zeta.
  destruct (on_progress_cases self now br)
    as [[-> ->]|[(e & -> & _ & _)|(-> & -> & _)]]; cbn [Eff.result Eff.state andb].
  - cbn [Nat.add]. apply IH. assumption.
  - destruct (_ && _); cbn; lia.
  - rewrite (burst_quiet start rest (updated self now br) Hrest)
      by (rewrite updated_last_time; exact Hlo).
    destruct (_ && _); cbn; lia.
Qed.

(** C3, amended: on a monitor with a progress bar attached, a call of
    [on_progress] reaches [bar.progress] if and only if more than 0.1 s have
    passed since the stored time (the last emission, or [set_ui]) or no bytes
    remain; and among the calls of a burst that all fall within 50 ms, at most
    one that is not forced by zero bytes remaining emits. *)
Theorem emission_rule_attached
    (self : t) (b : Widget) (now : Q) (br : Z) (start : Q) (ticks : list (Q * Z)) :
  bar self = Some b ->
  Forall (in_burst start) ticks ->
  (emits self now br = true <-> ((1 # 10) < now - last_time self)%Q \/ br = 0)
  /\ (unforced_emissions self ticks <= 1)%nat.
Proof.
  intros Hb Hin. split.
  - rewrite emits_iff, due_iff. split; [tauto|]. intros H. split; [eauto|exact H].
  - apply burst_at_most_one with start. exact Hin.
Qed.

Lemma emission_rule_attached_witness :
  let self := Eff.state (set_ui (mkWidget 1) (mkWidget 0) 1000 10%Q init) in
  let ticks := [((1015 # 100)%Q, 900); ((1016 # 100)%Q, 800);
                ((1018 # 100)%Q, 0); ((1019 # 100)%Q, 0)] in
  bar self = Some (mkWidget 1)
  /\ Forall (in_burst (1015 # 100)) ticks
  /\ (emits self (1015 # 100)%Q 900 = true
      <-> ((1 # 10) < (1015 # 100) - last_time self)%Q \/ 900 = 0)
  /\ (unforced_emissions self ticks <= 1)%nat.
Proof.
  intros self ticks.
  assert (Hb : bar self = Some (mkWidget 1)) by reflexivity.
  assert (Hin : Forall (in_burst (1015 # 100)) ticks).
  { unfold ticks, in_burst.
    repeat (constructor; [split; vm_compute; discriminate|]).
    constructor. }
  split; [exact Hb|]. split; [exact Hin|].
  exact (emission_rule_attached self (mkWidget 1) (1015 # 100)%Q 900 (1015 # 100)%Q
           ticks Hb Hin).
Defined.

End Throttle.

(** ** Throughput *)

Section Throughput.

Import FormatBytes DownloadMonitor.

(** A call that shows a text has computed the speed of lines 60-65, rendered
    it with [format_bytes], returned normally and stored the current time and
    bytes. *)
Lemma text_call (self : t) (now : Q) (br : Z)
    (txt : Widget) (p : Z) (r_done r_total r_speed : Rendered) :
  In (TextMarkdown txt p r_done r_total r_speed) (Eff.calls (on_progress now br self)) ->
  format_bytes (speed_of self now br) = Ok r_speed
  /\ Eff.result (on_progress now br self) = Ok tt
  /\ Eff.state (on_progress now br self) = updated self now br.
Proof.
  destruct (bar self) as [b|] eqn:Hb.
  - destruct (due self now br) eqn:Hd.
    + destruct (on_progress_due self b now br Hb Hd)
        as [(e & -> & _)|(txt' & r1 & r2 & r3 & _ & _ & _ & E3 & ->)];
        cbn [Eff.calls Eff.result Eff.state]; intros Hin.
      * destruct Hin as [Hin|[]]. discriminate.
      * destruct Hin as [Hin|[Hin|[]]]; [discriminate|].
        inversion Hin; subst. auto.
    + rewrite (on_progress_not_due self now br Hd). intros [].
  - rewrite (on_progress_unattached self now br Hb). intros [].
Qed.

Lemma speed_of_positive (self : t) (now : Q) (br : Z) :
  (0 < now - last_time self)%Q ->
  speed_of self now br = (inject_Z (last_bytes self - br) / (now - last_time self))%Q.
Proof.
  intros H. unfold speed_of. destruct (Qlt_le_dec 0 (now - last_time self)); [reflexivity|].
  exfalso. apply (Qlt_irrefl 0). eapply Qlt_le_trans; eassumption.
Qed.

Lemma speed_of_nonpositive (self : t) (now : Q) (br : Z) :
  (now - last_time self <= 0)%Q -> speed_of self now br = 0%Q.
Proof.
  intros H. unfold speed_of. destruct (Qlt_le_dec 0 (now - last_time self)); [|reflexivity].
  exfalso. apply (Qlt_irrefl 0). eapply Qlt_le_trans; eassumption.
Qed.

(** C8: whenever a call of [on_progress] shows a throughput, the size shown
    stands for (stored bytes remaining - current bytes remaining) divided by
    (current time - stored time) when that elapsed time is positive, and for 0
    when it is not; the call returns normally and leaves the current time and
    bytes remaining in [last_time] and [last_bytes], so the throughput shown
    by a later call is measured from this call's time and bytes. *)
Theorem throughput_window (self : t) (now : Q) (br : Z)
    (txt : Widget) (p : Z) (r_done r_total r_speed : Rendered) :
  In (TextMarkdown txt p r_done r_total r_speed) (Eff.calls (on_progress now br self)) ->
  let o := on_progress now br self in
  ((0 < now - last_time self)%Q ->
     (denotes r_speed == inject_Z (last_bytes self - br) / (now - last_time self))%Q)
  /\ ((now - last_time self <= 0)%Q -> (denotes r_speed == 0)%Q)
  /\ Eff.result o = Ok tt
  /\ last_time (Eff.state o) = now
  /\ last_bytes (Eff.state o) = br
  /\ (forall now' br' txt' p' r_done' r_total' r_speed',
        In (TextMarkdown txt' p' r_done' r_total' r_speed')
           (Eff.calls (on_progress now' br' (Eff.state o))) ->
        (0 < now' - now)%Q ->
        (denotes r_speed' == inject_Z (br - br') / (now' - now))%Q).
Proof.
  intros Hin o. subst o.
  destruct (text_call _ _ _ _ _ _ _ _ Hin) as (Hf & Hr & Hs).
  apply format_bytes_ok in Hf as [Hden _].
  split; [|split; [|split; [|split; [|split]]]].
  - intros Hpos. rewrite Hden, (speed_of_positive self now br Hpos). reflexivity.
  - intros Hneg. rewrite Hden, (speed_of_nonpositive self now br Hneg). reflexivity.
  - exact Hr.
  - rewrite Hs. reflexivity.
  - rewrite Hs. reflexivity.
  - intros now' br' txt' p' d' t' s' Hin' Hpos. rewrite Hs in Hin'.
    destruct (text_call _ _ _ _ _ _ _ _ Hin') as (Hf' & _ & _).
    apply format_bytes_ok in Hf' as [Hden' _].
    rewrite Hden'. rewrite speed_of_positive by exact Hpos. reflexivity.
Qed.

Lemma throughput_window_witness :
  let self := Eff.state (set_ui (mkWidget 1) (mkWidget 0) 4000000 10%Q init) in
  let r := mkRendered (2000000 # 1048576) "M" in
  In (TextMarkdown (mkWidget 0) 50 r (mkRendered (4000000 # 1048576) "M") r)
     (Eff.calls (on_progress 11%Q 2000000 self))
  /\ (denotes r == inject_Z (last_bytes self - 2000000) / (11 - last_time self))%Q
  /\ last_time (Eff.state (on_progress 11%Q 2000000 self)) = 11%Q
  /\ last_bytes (Eff.state (on_progress 11%Q 2000000 self)) = 2000000.
Proof.
  intros self r.
  assert (Hin : In (TextMarkdown (mkWidget 0) 50 r (mkRendered (4000000 # 1048576) "M") r)
                   (Eff.calls (on_progress 11%Q 2000000 self))).
  { vm_compute. right. left. reflexivity. }
  split; [exact Hin|].
  destruct (throughput_window self 11%Q 2000000 _ _ _ _ _ Hin) as (Hpos & _ & _ & Ht & Hb & _).
  split; [apply Hpos; reflexivity|]. split; assumption.
Defined.

End Throughput.

(** * Properties of [sanitize_filename] *)

Section Sanitize.


(** C5 as stated fails on its own example: the characters are removed, not
    replaced by a space, so the words on both sides of the slash are joined. *)
Lemma sanitize_scenario_refuted :
  sanitize_filename "Foo: Bar/Baz?" <> "Foo Bar Baz".
Proof. vm_compute. discriminate. Qed.

Lemma sanitize_filename_filter (name : string) :
  list_ascii_of_string (sanitize_filename name)
  = List.filter (fun c => negb (is_illegal c)) (list_ascii_of_string name).
Proof.
  induction name as [|c rest IH]; [reflexivity|].
  cbn [sanitize_filename list_ascii_of_string List.filter].
  destruct (is_illegal c); cbn [negb list_ascii_of_string]; congruence.
Qed.

Lemma is_illegal_iff (c : ascii) : is_illegal c = true <-> In c illegal_chars.
Proof.
  unfold is_illegal. rewrite existsb_exists. split.
  - intros (x & Hin & Heq). apply Ascii.eqb_eq in Heq. subst. exact Hin.
  - intros Hin. exists c. split; [exact Hin|apply Ascii.eqb_refl].
Qed.

(** C5, amended: the sanitized name is the name without the characters of
    the class, the other characters kept in their order; none of the nine
    characters occurs in it; a name without any of them is unchanged; and
    the title of the scenario becomes [Foo BarBaz]. *)
Theorem sanitize_filename_strips (name : string) :
  list_ascii_of_string (sanitize_filename name)
  = List.filter (fun c => negb (is_illegal c)) (list_ascii_of_string name)
  /\ (forall c, In c illegal_chars ->
        ~ In c (list_ascii_of_string (sanitize_filename name)))
  /\ ((forall c, In c (list_ascii_of_string name) -> ~ In c illegal_chars) ->
        sanitize_filename name = name)
  /\ sanitize_filename "Foo: Bar/Baz?" = "Foo BarBaz".
Proof.
  split; [apply sanitize_filename_filter|]. split; [|split; [|reflexivity]].
  - intros c Hc Hin. rewrite sanitize_filename_filter in Hin.
    apply filter_In in Hin as [_ Hn]. apply is_illegal_iff in Hc.
    rewrite Hc in Hn. discriminate.
  - induction name as [|c rest IH]; intros Hclean; [reflexivity|].
    cbn [sanitize_filename].
    destruct (is_illegal c) eqn:E.
    + exfalso. apply (Hclean c); [left; reflexivity|apply is_illegal_iff; exact E].
    + f_equal. apply IH. intros c' Hin. apply Hclean. right. exact Hin.
Qed.

Lemma sanitize_filename_strips_witness :
  (forall c, In c (list_ascii_of_string "clip.mp4") -> ~ In c illegal_chars)
  /\ sanitize_filename "clip.mp4" = "clip.mp4".
Proof.
  assert (H : forall c, In c (list_ascii_of_string "clip.mp4") -> ~ In c illegal_chars).
  { intros c Hin Hbad. apply is_illegal_iff in Hbad.
    cbn in Hin. repeat (destruct Hin as [<-|Hin]; [vm_compute in Hbad; discriminate|]).
    destruct Hin. }
  split; [exact H|].
  exact (proj1 (proj2 (proj2 (sanitize_filename_strips "clip.mp4"))) H).
Defined.

End Sanitize.

(** * Properties of the resolution catalogue *)

Section CatalogFacts.

Import Catalog.

Lemma dict_get_app {V} (d : Dict V) (k : string) (v : V) (r : string) :
  dict_get (d ++ [(k, v)]) r =
  match dict_get d r with
  | Some x => Some x
  | None => if String.eqb r k then Some v else None
  end.
Proof.
  induction d as [|[k' v'] d IH]; cbn; [reflexivity|].
  destruct (String.eqb r k'); [reflexivity|exact IH].
Qed.

Lemma dict_get_none {V} (d : Dict V) (r : string) :
  dict_get d r = None <-> ~ In r (map fst d).
Proof.
  induction d as [|[k v] d IH]; cbn; [tauto|].
  destruct (String.eqb r k) eqn:E.
  - apply String.eqb_eq in E. subst. split; [discriminate|]. intros H. exfalso. auto.
  - apply String.eqb_neq in E. rewrite IH. split.
    + intros H [H'|H']; [congruence|auto].
    + intros H H'. auto.
Qed.

Lemma dict_get_in {V} (d : Dict V) (r : string) (v : V) :
  dict_get d r = Some v -> In (r, v) d.
Proof.
  induction d as [|[k v'] d IH]; cbn; [discriminate|].
  destruct (String.eqb r k) eqn:E.
  - apply String.eqb_eq in E. intros H. inversion H. subst. auto.
  - auto.
Qed.

Lemma truthy_some (o : option string) (r : string) :
  truthy o = Some r <-> o = Some r /\ r <> "".
Proof.
  destruct o as [[|c s]|]; cbn; split.
  - discriminate.
  - intros [H Hne]. inversion H. subst. contradiction.
  - intros H. inversion H. split; [reflexivity|discriminate].
  - intros [H _]. exact H.
  - discriminate.
  - intros [H _]. discriminate.
Qed.

Lemma truthy_none (o : option string) :
  truthy o = None <-> o = None \/ o = Some "".
Proof.
  destruct o as [[|c s]|]; cbn; split; auto; try discriminate.
  intros [H|H]; discriminate.
Qed.

Lemma first_with_resolution_cons (r : string) (s : Stream.t) (rest : list Stream.t) :
  first_with_resolution r (s :: rest) =
  match Stream.resolution s with
  | Some r' => if String.eqb r r' then Some s else first_with_resolution r rest
  | None => first_with_resolution r rest
  end.
Proof.
  unfold first_with_resolution. cbn [find].
  destruct (Stream.resolution s) as [r'|]; [|reflexivity].
  destruct (String.eqb r r'); reflexivity.
Qed.

(** The loop of lines 145-147, from any dictionary it has built so far. *)
Lemma collect_spec (all : list Stream.t) : forall acc : Dict Stream.t,
  List.NoDup (map fst acc) ->
  List.NoDup (map fst (collect all acc))
  /\ (forall r s, In (r, s) (collect all acc) <->
        In (r, s) acc
        \/ (dict_get acc r = None /\ r <> "" /\ first_with_resolution r all = Some s)).
Proof.
  induction all as [|x rest IH]; intros acc Hnd; cbn [collect].
  - split; [exact Hnd|]. intros r s. split; [auto|].
    intros [H|(_ & _ & H)]; [exact H|discriminate].
  - destruct (truthy (Stream.resolution x)) as [r0|] eqn:Et.
    + apply truthy_some in Et as [Hres Hne0].
      unfold dict_mem. destruct (dict_get acc r0) as [v0|] eqn:Eg; cbn [negb].
      * destruct (IH acc Hnd) as [Hnd' Hin]. split; [exact Hnd'|].
        intros r s. rewrite Hin, first_with_resolution_cons, Hres.
        destruct (String.eqb r r0) eqn:E; [|tauto].
        apply String.eqb_eq in E. subst r0. split; [|intros [H|(Hn & _)]; [auto|congruence]].
        intros [H|(Hn & _)]; [auto|congruence].
      * assert (Hnd2 : List.NoDup (map fst (dict_add acc r0 x))).
        { unfold dict_add. rewrite map_app. cbn.
          apply dict_get_none in Eg.
          rewrite <- (rev_involutive (map fst acc ++ [r0])).
          apply NoDup_rev. rewrite rev_app_distr. cbn.
          constructor; [rewrite <- in_rev; exact Eg|apply NoDup_rev; exact Hnd]. }
        destruct (IH _ Hnd2) as [Hnd' Hin]. split; [exact Hnd'|].
        intros r s. rewrite Hin, first_with_resolution_cons, Hres.
        unfold dict_add. rewrite dict_get_app, in_app_iff. cbn [In].
        destruct (String.eqb r r0) eqn:E.
        -- apply String.eqb_eq in E. subst r0. rewrite Eg. split.
           ++ intros [[H|[H|[]]]|(Hn & _)]; [auto| |discriminate].
              inversion H; subst. right. auto.
           ++ intros [H|(_ & _ & H)]; [auto|]. inversion H; subst. auto.
        -- apply String.eqb_neq in E. split.
           ++ intros [[H|[H|[]]]|(Hn & Hne & Hf)]; [auto| |].
              ** inversion H; subst. contradiction.
              ** destruct (dict_get acc r); [discriminate|]. auto.
           ++ intros [H|(Hn & Hne & Hf)]; [auto|]. right. rewrite Hn. auto.
    + apply truthy_none in Et.
      destruct (IH acc Hnd) as [Hnd' Hin]. split; [exact Hnd'|].
      intros r s. rewrite Hin, first_with_resolution_cons.
      destruct Et as [-> | ->]; [tauto|].
      destruct (String.eqb r "") eqn:E; [|tauto].
      apply String.eqb_eq in E. subst r. split; intros [H|(_ & Hne & _)]; auto; contradiction.
Qed.

(** C4: in the dictionary built from the streams in the order the provider
    lists them, no resolution occurs twice; a resolution is an entry exactly
    when it is not empty and some stream of the list carries it, and its
    entry is the first such stream; a stream whose resolution is absent or
    empty is in no entry. *)
Theorem resolutions_dedup (all : list Stream.t) :
  List.NoDup (map fst (resolutions all))
  /\ (forall r s, In (r, s) (resolutions all) <->
        r <> "" /\ first_with_resolution r all = Some s)
  /\ (forall r s, In (r, s) (resolutions all) ->
        Stream.resolution s = Some r /\ In s all
        /\ Stream.resolution s <> None /\ Stream.resolution s <> Some "").
Proof.
  unfold resolutions.
  destruct (collect_spec all [] (List.NoDup_nil _)) as [Hnd Hin].
  assert (Hiff : forall r s, In (r, s) (collect all []) <->
                   r <> "" /\ first_with_resolution r all = Some s).
  { intros r s. rewrite Hin. cbn. split; [intros [[]|(_ & H)]; exact H|auto]. }
  split; [exact Hnd|]. split; [exact Hiff|].
  intros r s H. apply Hiff in H as [Hne Hf].
  unfold first_with_resolution in Hf. apply find_some in Hf as [Hs Hr].
  destruct (Stream.resolution s) as [r'|]; [|discriminate].
  apply String.eqb_eq in Hr. subst r'.
  repeat split; auto; congruence.
Qed.

Lemma resolutions_dedup_witness :
  let progressive := Stream.mk 22 "video" "mp4" (Some "720p") None true true 25000000 "clip.mp4" in
  let adaptive := Stream.mk 136 "video" "mp4" (Some "720p") None true false 20000000 "clip.mp4" in
  let unnamed := Stream.mk 19 "video" "mp4" None None true true 10000000 "clip.mp4" in
  In ("720p", progressive) (resolutions [unnamed; progressive; adaptive])
  /\ ~ In ("720p", adaptive) (resolutions [unnamed; progressive; adaptive]).
Proof.
  intros progressive adaptive unnamed.
  destruct (resolutions_dedup [unnamed; progressive; adaptive]) as (_ & Hiff & _).
  split.
  - apply Hiff. split; [discriminate|reflexivity].
  - intros H. apply Hiff in H as [_ H]. vm_compute in H. discriminate.
Defined.

End CatalogFacts.

(** ** The audio track chosen for merging *)

Section BestAudio.

Import StreamQuery Catalog.

Variable key : Stream.t -> option nat.

Lemma insert_sorted_in (s x : Stream.t) (l : list Stream.t) :
  In x (insert_sorted key s l) <-> x = s \/ In x l.
Proof.
  induction l as [|y rest IH]; cbn [insert_sorted].
  - cbn [In]. intuition (subst; auto).
  - destruct (key_of key s <? key_of key y)%nat; cbn [In].
    + intuition (subst; auto).
    + rewrite IH. intuition (subst; auto).
Qed.

Lemma insert_sorted_ascending (s : Stream.t) (l : list Stream.t) :
  ascending key l -> ascending key (insert_sorted key s l).
Proof.
  unfold ascending. induction l as [|y rest IH]; intros Hs; cbn [insert_sorted].
  - repeat constructor.
  - destruct (key_of key s <? key_of key y)%nat eqn:E.
    + apply Nat.ltb_lt in E. constructor; [exact Hs|].
      inversion Hs as [|? ? _ Hall]; subst. constructor; [lia|].
      eapply List.Forall_impl; [|exact Hall]. cbn beta. intros z Hz. lia.
    + apply Nat.ltb_ge in E. inversion Hs as [|? ? Hrest Hall]; subst.
      constructor; [apply IH; exact Hrest|].
      apply List.Forall_forall. intros z Hz. apply insert_sorted_in in Hz as [->|Hz]; [exact E|].
      exact (proj1 (List.Forall_forall _ _) Hall z Hz).
Qed.

Lemma fold_insert_spec (l : list Stream.t) : forall acc : list Stream.t,
  ascending key acc ->
  ascending key (fold_left (fun acc s => insert_sorted key s acc) l acc)
  /\ (forall x, In x (fold_left (fun acc s => insert_sorted key s acc) l acc)
                <-> In x l \/ In x acc).
Proof.
  induction l as [|s rest IH]; intros acc Hacc; cbn [fold_left].
  - split; [exact Hacc|]. intros x. cbn [In]. tauto.
  - destruct (IH _ (insert_sorted_ascending s acc Hacc)) as [Hs Hin].
    split; [exact Hs|]. intros x. rewrite Hin, insert_sorted_in. cbn [In].
    intuition (subst; auto).
Qed.

Lemma head_rev_ascending (l : list Stream.t) :
  ascending key l ->
  match head (rev l) with
  | Some m => In m l /\ forall x, In x l -> (key_of key x <= key_of key m)%nat
  | None => l = []
  end.
Proof.
  unfold ascending. induction l as [|a rest IH]; intros Hs; [reflexivity|].
  inversion Hs as [|? ? Hrest Hall]; subst. specialize (IH Hrest).
  cbn [rev]. destruct (rev rest) as [|m tl] eqn:Er; cbn [head app] in *.
  - subst rest. split; [left; reflexivity|]. intros x [->|[]]. lia.
  - destruct IH as [Hm Hmax]. split; [right; exact Hm|].
    intros x [->|Hx]; [|apply Hmax; exact Hx].
    exact (proj1 (List.Forall_forall _ _) Hall m Hm).
Qed.

(** [first(desc(order_by(key, q)))]: a stream of [q] that has the attribute,
    with the largest value of it; [None] when no stream of [q] has it. *)
Lemma first_desc_order_by (q : list Stream.t) :
  match first (desc (order_by key q)) with
  | Some m =>
      In m q /\ key m <> None
      /\ forall x k, In x q -> key x = Some k -> (k <= key_of key m)%nat
  | None => forall x, In x q -> key x = None
  end.
Proof.
  unfold first, desc, order_by.
  set (has := fun s : Stream.t => match key s with Some _ => true | None => false end).
  destruct (fold_insert_spec (List.filter has q) [] (SSorted_nil _)) as [Hs Hin].
  pose proof (head_rev_ascending _ Hs) as Hh.
  destruct (head (rev _)) as [m|].
  - destruct Hh as [Hm Hmax]. apply Hin in Hm as [Hm|[]].
    apply filter_In in Hm as [Hmq Hmk]. split; [exact Hmq|]. split.
    + unfold has in Hmk. destruct (key m); discriminate.
    + intros x k Hx Hk.
      assert (Hx' : In x (List.filter has q)).
      { apply filter_In. split; [exact Hx|]. unfold has. rewrite Hk. reflexivity. }
      specialize (Hmax x (proj2 (Hin x) (or_introl Hx'))).
      unfold key_of in Hmax at 1. rewrite Hk in Hmax. exact Hmax.
  - intros x Hx. destruct (key x) as [k|] eqn:Hk; [|reflexivity]. exfalso.
    assert (Hx' : In x (List.filter has q)).
    { apply filter_In. split; [exact Hx|]. unfold has. rewrite Hk. reflexivity. }
    pose proof (proj2 (Hin x) (or_introl Hx')) as Hx''.
    rewrite Hh in Hx''. destruct Hx''.
Qed.

End BestAudio.

(** [best_audio] is an audio-only stream with the highest bitrate, and is
    [None] exactly when no audio-only stream with a bitrate is listed. *)
Lemma best_audio_highest (streams : list Stream.t) :
  match Catalog.best_audio streams with
  | Some a =>
      In a streams /\ StreamQuery.only_audio a = true
      /\ forall x k, In x streams -> StreamQuery.only_audio x = true ->
                     Stream.abr x = Some k ->
                     (k <= StreamQuery.key_of Stream.abr a)%nat
  | None =>
      forall x, In x streams -> StreamQuery.only_audio x = true -> Stream.abr x = None
  end.
Proof.
  unfold Catalog.best_audio.
  pose proof (first_desc_order_by Stream.abr
                (StreamQuery.filter StreamQuery.only_audio streams)) as H.
  destruct (StreamQuery.first _) as [a|].
  - destruct H as (Hin & _ & Hmax). apply filter_In in Hin as [Hin Ha].
    split; [exact Hin|]. split; [exact Ha|].
    intros x k Hx Hxa Hk. apply (Hmax x k); [|exact Hk].
    apply filter_In. auto.
  - intros x Hx Hxa. apply H. apply filter_In. auto.
Qed.

(** * Properties of the page script *)

Section PageFacts.

Import DownloadMonitor Page.

Lemma subprocess_run_check_eq (env : Env) (cmd : list string) (w : World) :
  subprocess_run_check env cmd w =
  Eff.mkOutcome (mkWorld (snd (run env cmd (files w))) (monitor w)) [Spawn cmd]
    (match fst (run env cmd (files w)) with
     | Exited 0 => Ok tt
     | Exited code => Raise (CalledProcessError code)
     | ExecutableMissing => Raise FileNotFoundError
     | SpawnError message => Raise (OtherException message)
     end).
Proof.
  unfold subprocess_run_check, Eff.bind, Eff.emit, Eff.get, Eff.put, Eff.ret, Eff.raise.
  cbn [Eff.result Eff.state Eff.calls].
  destruct (run env cmd (files w)) as [outcome files'].
  destruct outcome as [[|code|code]| |message]; reflexivity.
Qed.

Lemma merge_audio_video_eq
    (env : Env) (video_path audio_path output_path : string) (w : World) :
  let cmd := ["ffmpeg"; "-y"; "-i"; video_path; "-i"; audio_path;
              "-c:v"; "copy"; "-c:a"; "aac"; output_path] in
  merge_audio_video env video_path audio_path output_path w =
  Eff.mkOutcome (mkWorld (snd (run env cmd (files w))) (monitor w))
    (Spawn cmd :: merge_report (fst (run env cmd (files w))))
    (Ok (merge_success (fst (run env cmd (files w))))).
Proof.
  intros cmd. unfold merge_audio_video, Eff.try_except. fold cmd.
  unfold Eff.bind. rewrite !subprocess_run_check_eq.
  cbn [Eff.result Eff.state Eff.calls].
  destruct (fst (run env cmd (files w))) as [[|code|code]| |message]; reflexivity.
Qed.

(** C9: whatever the spawn of the remux process does, [merge_audio_video]
    returns a boolean and raises nothing: [True] when the process exits with
    status 0, and [False] after one call of [st.error] when the executable is
    missing, when the spawn fails otherwise and when the process exits with
    another status. *)
Theorem merge_audio_video_total
    (env : Env) (video_path audio_path output_path : string) (w : World) :
  let cmd := ["ffmpeg"; "-y"; "-i"; video_path; "-i"; audio_path;
              "-c:v"; "copy"; "-c:a"; "aac"; output_path] in
  let o := merge_audio_video env video_path audio_path output_path w in
  (exists b : bool, Eff.result o = Ok b)
  /\ (match fst (run env cmd (files w)) with
      | Exited 0 =>
          Eff.result o = Ok true /\ Eff.calls o = [Spawn cmd]
      | Exited code =>
          Eff.result o = Ok false
          /\ Eff.calls o
             = [Spawn cmd;
                StError (About "Error merging files: " (CalledProcessError code))]
      | ExecutableMissing =>
          Eff.result o = Ok false
          /\ Eff.calls o
             = [Spawn cmd; StError (Plain "FFmpeg not found! Please install FFmpeg.")]
      | SpawnError message =>
          Eff.result o = Ok false
          /\ Eff.calls o
             = [Spawn cmd;
                StError (About "Error merging files: " (OtherException message))]
      end).
Proof.
  intros cmd o. subst o. rewrite merge_audio_video_eq. fold cmd.
  cbn [Eff.result Eff.calls]. split; [eauto|].
  destruct (fst (run env cmd (files w))) as [[|code|code]| |message]; split; reflexivity.
Qed.

Lemma remove_if_exists_eq (path : string) (w : World) :
  remove_if_exists path w
  = Eff.mkOutcome (mkWorld (files w ∖ {[ path ]}) (monitor w)) [] (Ok tt).
Proof.
  unfold remove_if_exists, Eff.bind, Eff.get. cbn [Eff.result Eff.state Eff.calls].
  destruct (bool_decide (path ∈ files w)) eqn:Hin; cbn [Eff.put Eff.ret]; [reflexivity|].
  apply bool_decide_eq_false in Hin.
  destruct w as [fs m]. cbn [files monitor] in *.
  assert (E : fs ∖ {[ path ]} = fs).
  { apply set_eq. intros x. rewrite elem_of_difference, elem_of_singleton.
    split; [tauto|]. intros Hx. split; [exact Hx|]. intros ->. contradiction. }
  rewrite E. reflexivity.
Qed.

(** What lines 196-208 do to the files. *)
Lemma merge_and_cleanup_files
    (env : Env) (status_text progress_bar : Widget)
    (video_path audio_path final_path : string) (w : World) :
  let cmd := ["ffmpeg"; "-y"; "-i"; video_path; "-i"; audio_path;
              "-c:v"; "copy"; "-c:a"; "aac"; final_path] in
  let o := merge_and_cleanup env status_text progress_bar
             video_path audio_path final_path w in
  Eff.result o = Ok tt
  /\ files (Eff.state o)
     = (snd (run env cmd (files w)) ∖ {[ video_path ]}) ∖ {[ audio_path ]}.
Proof.
  intros cmd o. subst o. unfold merge_and_cleanup.
  rewrite bind_eq. cbn [Eff.emit Eff.result Eff.state Eff.calls].
  rewrite bind_eq, merge_audio_video_eq. fold cmd.
  cbn [Eff.result Eff.state Eff.calls].
  rewrite bind_eq, remove_if_exists_eq. cbn [Eff.result Eff.state Eff.calls].
  rewrite bind_eq, remove_if_exists_eq. cbn [Eff.result Eff.state Eff.calls files].
  destruct (merge_success _); split; reflexivity.
Qed.

(** Whatever the merge does, lines 201-202 leave neither of the two
    downloaded files on disk. *)
Lemma merge_and_cleanup_removes
    (env : Env) (status_text progress_bar : Widget)
    (video_path audio_path final_path : string) (w : World) :
  let o := merge_and_cleanup env status_text progress_bar
             video_path audio_path final_path w in
  Eff.result o = Ok tt
  /\ (video_path ∉ files (Eff.state o))
  /\ (audio_path ∉ files (Eff.state o)).
Proof.
  intros o. subst o.
  destruct (merge_and_cleanup_files env status_text progress_bar
              video_path audio_path final_path w) as [Hr Hf].
  split; [exact Hr|]. rewrite Hf.
  split; rewrite !elem_of_difference, !elem_of_singleton; tauto.
Qed.

(** C1, at an input where it fails: the video track of an adaptive stream is
    downloaded, then the download of the audio track raises.  The handler of
    line 220 shows the error and nothing removes the video file: it is the
    one file left in the directory, under the temporary prefix. *)
Theorem audio_failure_leaves_video_file :
  let video := Stream.mk 137 "video" "mp4" (Some "1080p") None true false
                 50000000 "clip.mp4" in
  let audio := Stream.mk 140 "audio" "mp4" None (Some 128%nat) false true
                 5000000 "clip.m4a" in
  let env := mkEnv "/home/u" (fun _ fs => (Exited 0, fs))
               10%Q (Streamed [] None)
               12%Q (Refused (OtherException "connection reset")) in
  let o := download_clicked env (mkWidget 0) (mkWidget 1) video (Some audio) 5000000
             (mkWorld ∅ init) in
  Eff.result o = Ok tt
  /\ Eff.calls o
     = [StatusText (mkWidget 0) "Phase 1/3: Downloading Video Track...";
        ProviderTransfer 137 "/home/u/Downloads/temp_video_clip.mp4";
        StatusText (mkWidget 0) "Phase 2/3: Downloading Audio Track...";
        StError (About "Error: " (OtherException "connection reset"))]
  /\ elements (files (Eff.state o)) = ["/home/u/Downloads/temp_video_clip.mp4"]
  /\ is_temporary "/home/u/Downloads" "/home/u/Downloads/temp_video_clip.mp4" = true.
Proof. vm_compute. repeat split; reflexivity. Qed.

(** C6, at an input where it fails: the only stream is an adaptive 1080p
    video, so there is no audio track.  The page offers the resolution as a
    high-resolution option; selecting it downloads the whole video track and
    only then fails on the missing audio track, leaving the video file. *)
Theorem adaptive_offered_without_audio :
  let video := Stream.mk 137 "video" "mp4" (Some "1080p") None true false
                 50000000 "clip.mp4" in
  let env := mkEnv "/home/u" (fun _ fs => (Exited 0, fs))
               10%Q (Streamed [] None) 12%Q (Streamed [] None) in
  let o := select_and_download env (mkWidget 0) (mkWidget 1) [video] "1080p"
             (mkWorld ∅ init) in
  Catalog.best_audio [video] = None
  /\ offered [video]
     = Ok [(Catalog.mkLabel "1080p" true
              (FormatBytes.mkRendered (50000000 # 1048576) "M"), "1080p")]
  /\ Eff.calls o
     = [StatusText (mkWidget 0) "Phase 1/3: Downloading Video Track...";
        ProviderTransfer 137 "/home/u/Downloads/temp_video_clip.mp4";
        StatusText (mkWidget 0) "Phase 2/3: Downloading Audio Track...";
        StError (About "Error: " (AttributeError "download"))]
  /\ elements (files (Eff.state o)) = ["/home/u/Downloads/temp_video_clip.mp4"].
Proof. vm_compute. repeat split; reflexivity. Qed.

End PageFacts.

(** * Further properties of [format_bytes] *)

Section FormatBytesUnits.

Import FormatBytes.
Local Open Scope Q_scope.

Lemma power_pow_succ (k : nat) :
  power ^ Z.of_nat (S k) == power * power ^ Z.of_nat k.
Proof.
  rewrite Nat2Z.inj_succ. unfold Z.succ.
  rewrite Qpower_plus by (rewrite power_value; lra).
  change (power ^ 1) with power. ring.
Qed.

Lemma power_pow_ge_1 (k : nat) : 1 <= power ^ Z.of_nat k.
Proof.
  induction k as [|k IH].
  - change (power ^ Z.of_nat 0) with 1. lra.
  - rewrite power_pow_succ. set (x := power ^ Z.of_nat k) in *.
    rewrite power_value. lra.
Qed.

(** The loop counts at least [k + 1] divisions exactly when the size is
    above [power] to the [k + 1]. *)
Lemma scale_reaches (fuel : nat) : forall (size : Q) (n k : nat),
  size <= inject_Z (2 ^ Z.of_nat fuel) ->
  ((n + S k <= snd (scale fuel size n))%nat <-> power ^ Z.of_nat (S k) < size).
Proof.
  induction fuel as [|f IH]; intros size n k Hle; cbn [scale].
  - change (inject_Z (2 ^ Z.of_nat 0)) with 1 in Hle. cbn [snd].
    pose proof (power_pow_ge_1 (S k)). split; [lia|lra].
  - pose proof (power_pow_ge_1 k) as Hk.
    destruct (Qlt_le_dec power size) as [Hgt|Hsmall]; cbn [snd].
    + assert (Hle' : size / power <= inject_Z (2 ^ Z.of_nat f)).
      { rewrite pow2_succ in Hle. pose proof (pow2_pos f). rewrite power_value in *.
        apply Qle_shift_div_r; lra. }
      destruct k as [|k'].
      * destruct (scale_value f (size / power) (S n)) as [Hn _].
        change (power ^ Z.of_nat 1) with power. split; [intros _; exact Hgt|lia].
      * replace (n + S (S k'))%nat with (S n + S k')%nat by lia.
        rewrite (IH (size / power) (S n) k' Hle').
        rewrite (power_pow_succ (S k')).
        set (x := power ^ Z.of_nat (S k')). rewrite power_value.
        assert (Hd : size / 1024 == size * (1 # 1024)) by (unfold Qdiv; reflexivity).
        rewrite Hd. split; intros H; lra.
    + rewrite power_pow_succ. set (x := power ^ Z.of_nat k) in *.
      rewrite power_value in *. split; [lia|lra].
Qed.

Lemma format_bytes_count (size : Q) (k : nat) :
  (S k <= snd (scale (scale_fuel size) size 0))%nat <-> power ^ Z.of_nat (S k) < size.
Proof. apply (scale_reaches _ size 0%nat k), scale_fuel_enough. Qed.

(** X1: when [format_bytes] returns, the mantissa times 1024 to the power of
    the unit is the size it was given; the unit is the empty one exactly for
    sizes of at most 1024 (negative sizes and 1024 itself included), and with
    any of the units K, M, G, T the mantissa lies above 1 and is at most
    1024. *)
Theorem format_bytes_unit (size : Q) (r : Rendered) :
  format_bytes size = Ok r ->
  denotes r == size
  /\ mantissa r <= power
  /\ (0 <= unit_exponent (label r) <= 4)%Z
  /\ (unit_exponent (label r) = 0%Z <-> size <= power)
  /\ ((0 < unit_exponent (label r))%Z -> 1 < mantissa r).
Proof.
  intros H. destruct (format_bytes_ok size r H) as [Hden Hm].
  unfold format_bytes in H. unfold denotes in Hden.
  pose proof (format_bytes_count size) as Hcount.
  destruct (scale (scale_fuel size) size 0) as [s n]. cbn [snd] in Hcount.
  destruct (power_labels n) as [l|e] eqn:El; inversion H; subst; clear H.
  unfold denotes. cbn [mantissa label] in *.
  apply power_labels_ok in El as [He Hn4]. rewrite He in *.
  split; [exact Hden|]. split; [exact Hm|]. split; [lia|]. split.
  - destruct n as [|n'].
    + change (power ^ Z.of_nat 0) with 1 in Hden. split; [intros _; lra|reflexivity].
    + pose proof (proj1 (Hcount 0%nat) ltac:(lia)) as Hgt.
      change (power ^ Z.of_nat 1) with power in Hgt. split; [lia|lra].
  - intros Hpos. destruct n as [|n']; [lia|].
    pose proof (proj1 (Hcount n') ltac:(lia)) as Hgt.
    pose proof (power_pow_ge_1 (S n')) as Hp.
    rewrite <- Hden in Hgt. nra.
Qed.

Lemma format_bytes_unit_witness :
  format_bytes (inject_Z 55000000) = Ok (mkRendered (55000000 # 1048576) "M")
  /\ (denotes (mkRendered (55000000 # 1048576) "M") == inject_Z 55000000)
  /\ 1 < 55000000 # 1048576.
Proof.
  assert (H : format_bytes (inject_Z 55000000) = Ok (mkRendered (55000000 # 1048576) "M"))
    by (vm_compute; reflexivity).
  split; [exact H|].
  destruct (format_bytes_unit _ _ H) as (Hden & _ & _ & _ & Hgt).
  split; [exact Hden|]. apply Hgt. reflexivity.
Defined.


End FormatBytesUnits.

(** * Further properties of [DownloadMonitor] *)

Section MonitorSequences.

Import FormatBytes DownloadMonitor.

Lemma on_progress_fields (self : t) (now : Q) (br : Z) :
  bar (Eff.state (on_progress now br self)) = bar self
  /\ text (Eff.state (on_progress now br self)) = text self
  /\ total_size (Eff.state (on_progress now br self)) = total_size self.
Proof.
  destruct (on_progress_cases self now br)
    as [[-> _]|[(e & _ & -> & _)|(_ & -> & _)]]; cbn; auto.
Qed.

Lemma calls_all_cons (now : Q) (br : Z) (rest : list (Q * Z)) (self : t) :
  exists tail,
    Eff.calls (on_progress_all ((now, br) :: rest) self)
    = Eff.calls (on_progress now br self) ++ tail
    /\ (tail = [] \/ tail = Eff.calls (on_progress_all rest (Eff.state (on_progress now br self)))).
Proof.
  rewrite on_progress_all_cons. cbv zeta.
  destruct (Eff.result (on_progress now br self)); cbn [Eff.calls].
  - eexists. split; [reflexivity|]. right. reflexivity.
  - exists []. rewrite app_nil_r. auto.
Qed.

(** X3: in any sequence of [on_progress] calls, every value passed to
    [bar.progress] is at most 1; when no call reports more bytes remaining
    than the total of the phase, every value also is at least 0. *)
Theorem progress_values_in_range (ticks : list (Q * Z)) (self : t) :
  Forall (fun tick => snd tick <= total_size self) ticks ->
  Forall (fun v => (0 <= v <= 1)%Q)
         (progress_values (Eff.calls (on_progress_all ticks self))).
Proof.
  revert self. induction ticks as [|[now br] rest IH]; intros self Hall.
  - constructor.
  - inversion Hall as [|? ? Hbr Hrest]; subst. cbn [snd] in Hbr.
    destruct (calls_all_cons now br rest self) as (tail & -> & Htail).
    unfold progress_values. rewrite flat_map_app. apply Forall_app. split.
    + destruct (progress_values_bounds self now br) as [Hup Hlow].
      specialize (Hlow Hbr). fold (progress_values (Eff.calls (on_progress now br self))).
      apply List.Forall_forall. intros v Hv. split.
      * exact (proj1 (List.Forall_forall _ _) Hlow v Hv).
      * exact (proj1 (List.Forall_forall _ _) Hup v Hv).
    + destruct Htail as [-> | ->]; [constructor|].
      apply IH. destruct (on_progress_fields self now br) as (_ & _ & ->). exact Hrest.
Qed.

Lemma progress_values_in_range_witness :
  let self := Eff.state (set_ui (mkWidget 1) (mkWidget 0) 1000 10%Q init) in
  let ticks := [(11%Q, 600); (12%Q, 1000); (13%Q, 0)] in
  Forall (fun tick => snd tick <= total_size self) ticks
  /\ Forall (fun v => (0 <= v <= 1)%Q)
            (progress_values (Eff.calls (on_progress_all ticks self))).
Proof.
  intros self ticks.
  assert (H : Forall (fun tick => snd tick <= total_size self) ticks).
  { repeat (constructor; [vm_compute; discriminate|]). constructor. }
  split; [exact H|]. exact (progress_values_in_range ticks self H).
Defined.

(** X4: [on_progress] never changes the attached widgets or the total of
    the phase, over any sequence of calls; a call that raises leaves every
    field as it was, and a call that returns normally either leaves every
    field as it was or stores exactly the current time and bytes. *)
Theorem on_progress_frame (ticks : list (Q * Z)) (self : t) (now : Q) (br : Z) :
  let o := on_progress_all ticks self in
  bar (Eff.state o) = bar self
  /\ text (Eff.state o) = text self
  /\ total_size (Eff.state o) = total_size self
  /\ (forall e, Eff.result (on_progress now br self) = Raise e ->
        Eff.state (on_progress now br self) = self)
  /\ (Eff.result (on_progress now br self) = Ok tt ->
        Eff.state (on_progress now br self) = self
        \/ Eff.state (on_progress now br self) = updated self now br).
Proof.
  cbv zeta. split; [|split; [|split; [|split]]].
  4:{ intros e He. destruct (on_progress_cases self now br)
        as [[Ho _]|[(e' & _ & Hs & _)|(Hr & _ & _)]]; [rewrite Ho; reflexivity|exact Hs|].
      rewrite Hr in He. discriminate. }
  4:{ intros _. destruct (on_progress_cases self now br)
        as [[Ho _]|[(e' & _ & Hs & _)|(_ & Hs & _)]]; [rewrite Ho|..]; auto. }
  all: revert self; induction ticks as [|[t b] rest IH]; intros self; [reflexivity|];
    rewrite on_progress_all_cons; cbv zeta;
    destruct (on_progress_fields self t b) as (Hb & Ht & Hs);
    destruct (Eff.result (on_progress t b self)); cbn [Eff.state]; try assumption;
    rewrite IH; assumption.
Qed.

Lemma py_int_percent_full (p : positive) :
  py_int ((inject_Z (Zpos p - 0) / inject_Z (Zpos p)) * 100) = 100.
Proof.
  unfold py_int. cbn [Z.sub Z.opp Z.add inject_Z Qdiv Qinv Qmult Qnum Qden].
  rewrite Pos.mul_1_l, Pos.mul_1_r, Z.mul_1_r.
  rewrite Z.mul_comm. apply Z.quot_mul. discriminate.
Qed.

(** X5: on an attached monitor with a positive total, the call with zero
    bytes remaining always reaches [bar.progress], whatever the clock, with a
    value equal to 1, and the percentage it shows, if it shows the text, is
    100. *)
Theorem final_call_reports_full (self : t) (b : Widget) (now : Q) :
  bar self = Some b ->
  0 < total_size self ->
  exists v, progress_values (Eff.calls (on_progress now 0 self)) = [v]
            /\ (v == 1)%Q
            /\ Forall (fun p => p = 100) (text_percents (Eff.calls (on_progress now 0 self))).
Proof.
  intros Hb Hpos.
  assert (Hd : due self now 0 = true) by (apply due_iff; right; reflexivity).
  assert (Hpct : (pct_of self 0 == 1)%Q).
  { unfold pct_of. rewrite (proj2 (Z.ltb_lt _ _) Hpos), Z.sub_0_r.
    apply Qmult_inv_r. intros H. unfold Qeq in H. cbn in H. lia. }
  exists (py_min (pct_of self 0) 1). split; [|split].
  - destruct (on_progress_due self b now 0 Hb Hd)
      as [(e & -> & _)|(txt & r1 & r2 & r3 & _ & _ & _ & _ & ->)]; reflexivity.
  - unfold py_min. destruct (Qlt_le_dec 1 (pct_of self 0)); [reflexivity|exact Hpct].
  - destruct (on_progress_due self b now 0 Hb Hd)
      as [(e & -> & _)|(txt & r1 & r2 & r3 & _ & _ & _ & _ & ->)]; cbn; [constructor|].
    repeat constructor. unfold pct_of. rewrite (proj2 (Z.ltb_lt _ _) Hpos).
    destruct (total_size self) as [|p|p]; [lia| |lia]. apply py_int_percent_full.
Qed.

Lemma final_call_reports_full_witness :
  let self := Eff.state (set_ui (mkWidget 1) (mkWidget 0) 1000 10%Q init) in
  bar self = Some (mkWidget 1)
  /\ 0 < total_size self
  /\ exists v, progress_values (Eff.calls (on_progress (1001 # 100) 0 self)) = [v]
               /\ (v == 1)%Q
               /\ Forall (fun p => p = 100)
                    (text_percents (Eff.calls (on_progress (1001 # 100) 0 self))).
Proof.
  intros self.
  assert (Hb : bar self = Some (mkWidget 1)) by reflexivity.
  assert (Hpos : 0 < total_size self) by reflexivity.
  split; [exact Hb|]. split; [exact Hpos|].
  exact (final_call_reports_full self (mkWidget 1) (1001 # 100)%Q Hb Hpos).
Defined.

(** With a clock that does not run backwards, every unforced emission
    uses up more than 0.1 s of the time that is left. *)
Lemma unforced_budget (hi : Q) (ticks : list (Q * Z)) : forall self : t,
  StronglySorted (fun a b => (fst a <= fst b)%Q) ticks ->
  Forall (fun tick => (last_time self <= fst tick <= hi)%Q) ticks ->
  (last_time self <= hi)%Q ->
  (inject_Z (Z.of_nat (unforced_emissions self ticks)) * (1 # 10)
   <= hi - last_time self)%Q.
Proof.
  induction ticks as [|[now br] rest IH]; intros self Hsorted Hall Hhi.
  - cbn [unforced_emissions]. change (inject_Z (Z.of_nat 0)) with 0%Q. lra.
  - inversion Hsorted as [|? ? Hsorted' Hge]; subst.
    inversion Hall as [|? ? [Hlo Hup] Hall']; subst. cbn [fst] in Hlo, Hup.
    cbn [unforced_emissions]. cbv zeta.
    assert (Hrest : forall s', last_time s' = last_time self \/ last_time s' = now ->
              (inject_Z (Z.of_nat (unforced_emissions s' rest)) * (1 # 10)
               <= hi - last_time s')%Q).
    { intros s' Hs'. apply IH; [exact Hsorted'| |destruct Hs' as [-> | ->]; assumption].
      apply List.Forall_forall. intros tick Hin.
      pose proof (proj1 (List.Forall_forall _ _) Hall' tick Hin) as [Hl Hu].
      pose proof (proj1 (List.Forall_forall _ _) Hge tick Hin) as Hn. cbn [fst] in Hn.
      destruct Hs' as [-> | ->]; split; assumption. }
    destruct (on_progress_cases self now br)
      as [[-> ->]|[(e & -> & _ & He)|(-> & -> & He)]]; cbn [Eff.result Eff.state andb].
    + cbn [Nat.add]. apply Hrest. left. reflexivity.
    + rewrite He. cbn [andb]. destruct (br =? 0) eqn:Hz; cbn [negb Nat.add];
        [change (inject_Z (Z.of_nat 0)) with 0%Q; lra|].
      apply emits_iff in He as [_ Hd]. apply due_iff in Hd as [Hd|Hd];
        [|apply Z.eqb_neq in Hz; contradiction].
      change (inject_Z (Z.of_nat 1)) with 1%Q. lra.
    + rewrite He. cbn [andb].
      specialize (Hrest (updated self now br) (or_intror eq_refl)).
      rewrite updated_last_time in Hrest.
      destruct (br =? 0) eqn:Hz; cbn [negb Nat.add]; [lra|].
      apply emits_iff in He as [_ Hd]. apply due_iff in Hd as [Hd|Hd];
        [|apply Z.eqb_neq in Hz; contradiction].
      rewrite Nat2Z.inj_succ. unfold Z.succ. rewrite inject_Z_plus.
      change (inject_Z 1) with 1%Q. lra.
Qed.

(** X6: rate limit.  When the clock readings of a sequence of calls do not
    decrease, start at or after the stored time and end by [hi], the calls
    that reach [bar.progress] without being forced by zero bytes remaining
    number at most ten per second of [hi - last_time]. *)
Theorem unforced_emissions_rate (hi : Q) (ticks : list (Q * Z)) (self : t) :
  StronglySorted (fun a b => (fst a <= fst b)%Q) ticks ->
  Forall (fun tick => (last_time self <= fst tick <= hi)%Q) ticks ->
  (last_time self <= hi)%Q ->
  (inject_Z (Z.of_nat (unforced_emissions self ticks)) <= 10 * (hi - last_time self))%Q.
Proof.
  intros Hs Ha Hh. pose proof (unforced_budget hi ticks self Hs Ha Hh). lra.
Qed.

Lemma unforced_emissions_rate_witness :
  let self := Eff.state (set_ui (mkWidget 1) (mkWidget 0) 1000 10%Q init) in
  let ticks := [((1005 # 100)%Q, 900); ((1011 # 100)%Q, 800);
                ((1015 # 100)%Q, 700); ((1022 # 100)%Q, 600); ((1030 # 100)%Q, 0)] in
  StronglySorted (fun a b => (fst a <= fst b)%Q) ticks
  /\ Forall (fun tick => (last_time self <= fst tick <= 1030 # 100)%Q) ticks
  /\ (last_time self <= 1030 # 100)%Q
  /\ (inject_Z (Z.of_nat (unforced_emissions self ticks))
      <= 10 * ((1030 # 100) - last_time self))%Q.
Proof.
  intros self ticks.
  assert (Hs : StronglySorted (fun a b => (fst a <= fst b)%Q) ticks).
  { repeat (constructor;
            [|repeat (constructor; [vm_compute; discriminate|]); constructor]).
    constructor. }
  assert (Ha : Forall (fun tick => (last_time self <= fst tick <= 1030 # 100)%Q) ticks).
  { repeat (constructor; [split; vm_compute; discriminate|]). constructor. }
  assert (Hh : (last_time self <= 1030 # 100)%Q) by (vm_compute; discriminate).
  split; [exact Hs|]. split; [exact Ha|]. split; [exact Hh|].
  exact (unforced_emissions_rate (1030 # 100) ticks self Hs Ha Hh).
Defined.

End MonitorSequences.

(** * Further properties of [sanitize_filename] and of the paths *)

Section SanitizeMore.

Import Page.

Lemma sanitize_filename_app (a b : string) :
  sanitize_filename (String.append a b)
  = String.append (sanitize_filename a) (sanitize_filename b).
Proof.
  induction a as [|c rest IH]; [reflexivity|].
  simpl. destruct (is_illegal c); simpl; rewrite IH; reflexivity.
Qed.

Lemma sanitize_filename_length (a : string) :
  (String.length (sanitize_filename a) <= String.length a)%nat.
Proof.
  induction a as [|c rest IH]; [cbn; lia|].
  cbn [sanitize_filename]. destruct (is_illegal c); cbn [String.length]; lia.
Qed.

(** X7: sanitizing twice is sanitizing once, sanitizing a concatenation is
    concatenating the sanitized parts, and the result is never longer than
    the name. *)
Theorem sanitize_filename_idempotent (a b : string) :
  sanitize_filename (sanitize_filename a) = sanitize_filename a
  /\ sanitize_filename (String.append a b)
     = String.append (sanitize_filename a) (sanitize_filename b)
  /\ (String.length (sanitize_filename a) <= String.length a)%nat.
Proof.
  split; [|split; [apply sanitize_filename_app|apply sanitize_filename_length]].
  induction a as [|c rest IH]; [reflexivity|].
  cbn [sanitize_filename]. destruct (is_illegal c) eqn:E; [exact IH|].
  cbn [sanitize_filename]. rewrite E, IH. reflexivity.
Qed.



End SanitizeMore.

(** * Further properties of the resolution options *)

Section OptionsFacts.

Import Catalog.

Lemma dict_get_some_of_key {V} (d : Dict V) (r : string) :
  In r (map fst d) -> exists v, dict_get d r = Some v.
Proof.
  intros Hin. destruct (dict_get d r) as [v|] eqn:E; [eauto|].
  apply dict_get_none in E. contradiction.
Qed.

(** X9: the warning of line 150 is shown exactly when no stream of the
    list has a resolution that is present and not empty. *)
Theorem no_suitable_streams_iff (all : list Stream.t) :
  no_suitable_streams (resolutions all) = true
  <-> (forall s, In s all ->
         Stream.resolution s = None \/ Stream.resolution s = Some ""%string).
Proof.
  unfold resolutions.
  destruct (collect_spec all [] (List.NoDup_nil _)) as [_ Hin].
  split.
  - intros Hempty s Hs.
    destruct (Stream.resolution s) as [r|] eqn:Hr; [|auto].
    destruct (String.eqb r "") eqn:Er; [apply String.eqb_eq in Er; subst; auto|].
    apply String.eqb_neq in Er. exfalso.
    destruct (first_with_resolution r all) as [s'|] eqn:Hf.
    + assert (H : In (r, s') (collect all [])).
      { apply Hin. right. repeat split; auto. }
      destruct (collect all []); [destruct H|discriminate].
    + unfold first_with_resolution in Hf.
      pose proof (find_none _ _ Hf s Hs) as Hno. cbn beta in Hno.
      rewrite Hr, String.eqb_refl in Hno. discriminate.
  - intros Hnone. destruct (collect all []) as [|[r s] rest] eqn:E; [reflexivity|].
    exfalso. assert (H : In (r, s) ((r, s) :: rest)) by (left; reflexivity).
    apply Hin in H as [[]|(_ & Hne & Hf)].
    unfold first_with_resolution in Hf. apply find_some in Hf as [Hs Hr].
    destruct (Hnone s Hs) as [Hn|Hn]; rewrite Hn in Hr; [discriminate|].
    apply String.eqb_eq in Hr. contradiction.
Qed.

(** X10: when the labels can be built, the drop-down has one option per
    entry of [resolutions], in the same order; an option is marked high
    resolution exactly when its stream is not progressive, and the size it
    shows stands for the size of the stream, plus the size of the audio track
    for a stream that is not progressive. *)
Theorem res_options_shape (d : Dict Stream.t) (audio : Z)
    (options : list (Label * string)) :
  res_options d audio = Ok options ->
  map snd options = map fst d
  /\ Forall2 (fun option entry =>
                snd option = fst entry
                /\ label_res (fst option) = fst entry
                /\ high_res (fst option) = negb (Stream.is_progressive (snd entry))
                /\ (FormatBytes.denotes (size_text (fst option))
                    == inject_Z (if Stream.is_progressive (snd entry)
                                 then Stream.filesize (snd entry)
                                 else Stream.filesize (snd entry) + audio))%Q)
             options d.
Proof.
  revert options.
  induction d as [|[res stream] rest IH]; intros options H; cbn [res_options] in H.
  - inversion H. split; [reflexivity|constructor].
  - destruct (FormatBytes.format_bytes _) as [txt|e] eqn:Ef; [|discriminate].
    destruct (res_options rest audio) as [options'|e]; [|discriminate].
    inversion H; subst; clear H. destruct (IH options' eq_refl) as [Hm Hf].
    cbn [map fst snd]. split; [f_equal; exact Hm|].
    constructor; [|exact Hf]. cbn [fst snd label_res high_res size_text].
    split; [reflexivity|]. split; [reflexivity|]. split; [reflexivity|].
    apply format_bytes_ok in Ef as [Hden _]. rewrite Hden.
    destruct (Stream.is_progressive stream); reflexivity.
Qed.

Lemma res_options_shape_witness :
  let adaptive := Stream.mk 137 "video" "mp4" (Some "1080p") None true false
                    50000000 "clip.mp4" in
  let options := [(mkLabel "1080p" true (FormatBytes.mkRendered (55000000 # 1048576) "M"),
                   "1080p")] in
  res_options [("1080p", adaptive)] 5000000 = Ok options
  /\ map snd options = ["1080p"].
Proof.
  intros adaptive options.
  assert (H : res_options [("1080p", adaptive)] 5000000 = Ok options)
    by (vm_compute; reflexivity).
  split; [exact H|].
  exact (proj1 (res_options_shape [("1080p", adaptive)] 5000000 options H)).
Defined.

(** The drop-down can only fail to be built on a size that [format_bytes]
    has no label for. *)
Lemma res_options_raise (d : Dict Stream.t) (audio : Z) (e : PyExn) :
  res_options d audio = Raise e -> exists n, e = KeyError (IntKey n) /\ (5 <= n)%nat.
Proof.
  induction d as [|[res stream] rest IH]; cbn [res_options]; [discriminate|].
  destruct (FormatBytes.format_bytes _) as [txt|e'] eqn:Ef.
  - destruct (res_options rest audio) as [options'|e'']; [discriminate|].
    intros H. inversion H; subst. apply IH. reflexivity.
  - intros H. inversion H; subst. apply format_bytes_raise in Ef. exact Ef.
Qed.

Lemma dict_get_of_entry {V} (d : Dict V) (r : string) (v : V) :
  List.NoDup (map fst d) -> In (r, v) d -> dict_get d r = Some v.
Proof.
  induction d as [|[k v'] d IH]; intros Hnd Hin; [destruct Hin|].
  cbn [map fst] in Hnd. inversion Hnd as [|? ? Hk Hnd']; subst.
  cbn [dict_get]. destruct Hin as [Heq|Hin].
  - inversion Heq; subst. rewrite String.eqb_refl. reflexivity.
  - destruct (String.eqb r k) eqn:E; [|apply IH; assumption].
    apply String.eqb_eq in E. subst k. exfalso. apply Hk.
    apply in_map_iff. exists (r, v). auto.
Qed.

(** X11: every option the page shows can be selected: its resolution is a
    key of [resolutions], so the look-ups of lines 168-169 do not fail, and
    the stream found carries that resolution and is the one the label of the
    option describes. *)
Theorem offered_selectable (streams : list Stream.t)
    (options : list (Label * string)) (label : Label) (res : string) :
  Page.offered streams = Ok options ->
  In (label, res) options ->
  exists s,
    dict_get (resolutions (all_streams streams)) res = Some s
    /\ Stream.resolution s = Some res
    /\ label_res label = res
    /\ high_res label = negb (Stream.is_progressive s).
Proof.
  unfold Page.offered, resolutions. intros Hoff Hin.
  destruct (collect_spec (all_streams streams) [] (List.NoDup_nil _)) as [Hnd Hspec].
  apply res_options_shape in Hoff as [_ Hf].
  assert (Hentry : exists s, In (res, s) (collect (all_streams streams) [])
                             /\ label_res label = res
                             /\ high_res label = negb (Stream.is_progressive s)).
  { clear Hnd Hspec. induction Hf as [|option [r s] options' d' Hhd Htl IH]; [destruct Hin|].
    destruct Hin as [Heq|Hin].
    - subst option. cbn [fst snd] in Hhd. destruct Hhd as (Hr & Hl & Hh & _).
      subst r. exists s. split; [left; reflexivity|auto].
    - destruct (IH Hin) as (s' & Hs' & Hrest). exists s'. split; [right; exact Hs'|exact Hrest]. }
  destruct Hentry as (s & Hs & Hl & Hh). exists s.
  split; [apply dict_get_of_entry; assumption|]. split; [|auto].
  apply Hspec in Hs as [[]|(_ & _ & Hfind)].
  unfold first_with_resolution in Hfind. apply find_some in Hfind as [_ Hr].
  destruct (Stream.resolution s) as [r'|]; [|discriminate].
  apply String.eqb_eq in Hr. congruence.
Qed.

Lemma offered_selectable_witness :
  let adaptive := Stream.mk 137 "video" "mp4" (Some "1080p") None true false
                    50000000 "clip.mp4" in
  let label := mkLabel "1080p" true (FormatBytes.mkRendered (50000000 # 1048576) "M") in
  Page.offered [adaptive] = Ok [(label, "1080p")]
  /\ In (label, "1080p") [(label, "1080p")]
  /\ exists s,
       dict_get (resolutions (all_streams [adaptive])) "1080p" = Some s
       /\ Stream.resolution s = Some "1080p"
       /\ label_res label = "1080p"
       /\ high_res label = negb (Stream.is_progressive s).
Proof.
  intros adaptive label.
  assert (H : Page.offered [adaptive] = Ok [(label, "1080p")]) by (vm_compute; reflexivity).
  assert (Hin : In (label, "1080p") [(label, "1080p")]) by (left; reflexivity).
  split; [exact H|]. split; [exact Hin|].
  exact (offered_selectable [adaptive] _ label "1080p" H Hin).
Defined.

End OptionsFacts.

(** * Further properties of the download action *)

Section DownloadAction.

Import DownloadMonitor Page.

Lemma try_except_eq {S E A} (body : Eff.t S E A) (handler : PyExn -> Eff.t S E A) (s : S) :
  Eff.try_except body handler s =
  match Eff.result (body s) with
  | Ok _ => body s
  | Raise e =>
      Eff.mkOutcome (Eff.state (handler e (Eff.state (body s))))
        (Eff.calls (body s) ++ Eff.calls (handler e (Eff.state (body s))))
        (Eff.result (handler e (Eff.state (body s))))
  end.
Proof. reflexivity. Qed.

Lemma with_monitor_set_ui (bar_w text_w : Widget) (total : Z) (now : Q) (w : World) :
  with_monitor (set_ui bar_w text_w total now) w
  = Eff.mkOutcome (mkWorld (files w) (mk (Some bar_w) (Some text_w) total now total))
      [] (Ok tt).
Proof. reflexivity. Qed.

Lemma with_monitor_eq {A} (m : DownloadMonitor.M A) (w : World) :
  with_monitor m w
  = Eff.mkOutcome (mkWorld (files w) (Eff.state (m (monitor w))))
      (map FromMonitor (Eff.calls (m (monitor w))))
      (Eff.result (m (monitor w))).
Proof. reflexivity. Qed.

(** What a transfer does to the world. *)
Lemma download_eq (s : Stream.t) (output_path : string) (n : Naming)
    (tr : Transfer) (w : World) :
  download s output_path n tr w =
  let file_path := os_path_join output_path (target_name s n) in
  match tr with
  | Refused e => Eff.mkOutcome w [] (Raise e)
  | Streamed ticks failure =>
      let o := on_progress_all ticks (monitor w) in
      Eff.mkOutcome (mkWorld ({[ file_path ]} ∪ files w) (Eff.state o))
        (ProviderTransfer (Stream.itag s) file_path :: map FromMonitor (Eff.calls o))
        (match Eff.result o with
         | Raise e => Raise e
         | Ok _ => match failure with
                   | Some e => Raise e
                   | None => Ok file_path
                   end
         end)
  end.
Proof.
  unfold download. cbv zeta. destruct tr as [e|ticks failure]; [reflexivity|].
  rewrite bind_emit. unfold create_file. rewrite bind_eq, bind_get.
  cbn [Eff.put Eff.result Eff.state Eff.calls app].
  rewrite bind_eq, !with_monitor_eq. cbn [Eff.result Eff.state Eff.calls files monitor].
  destruct (Eff.result (on_progress_all ticks (monitor w))) as [[]|e].
  - destruct failure as [e|]; cbn [Eff.raise Eff.ret Eff.result Eff.state Eff.calls];
      rewrite app_nil_r; reflexivity.
  - reflexivity.
Qed.


Lemma in_monitor_calls (l : list SinkCall) (ev : Event) :
  In ev (map FromMonitor l) -> exists c, ev = FromMonitor c.
Proof. intros H. apply in_map_iff in H as (c & <- & _). eauto. Qed.

(** The events of a transfer are the request and calls of the monitor. *)
Lemma download_calls (s : Stream.t) (output_path : string) (n : Naming)
    (tr : Transfer) (w : World) (ev : Event) :
  In ev (Eff.calls (download s output_path n tr w)) ->
  ev = ProviderTransfer (Stream.itag s) (os_path_join output_path (target_name s n))
  \/ exists c, ev = FromMonitor c.
Proof.
  rewrite download_eq. cbv zeta. destruct tr as [e|ticks failure]; cbn [Eff.calls].
  - intros [].
  - intros [H|H]; [left; symmetry; exact H|right; apply in_monitor_calls in H; exact H].
Qed.

(** X13: the standard branch.  For a progressive stream the action never
    spawns a process and never removes a file: the files afterwards are those
    from before, with the final path added when the transfer opened its
    target; and a success message is only shown for the final path, which
    is then on disk. *)
Theorem standard_download
    (env : Env) (status_text progress_bar : Widget)
    (selected_stream : Stream.t) (best_audio : option Stream.t) (audio_size : Z)
    (w : World) :
  Stream.is_progressive selected_stream = true ->
  let o := download_clicked env status_text progress_bar
             selected_stream best_audio audio_size w in
  let final_path := os_path_join (get_download_folder env)
                      (sanitize_filename (Stream.default_filename selected_stream)) in
  (forall cmd, ~ In (Spawn cmd) (Eff.calls o))
  /\ (files (Eff.state o) = files w \/ files (Eff.state o) = {[ final_path ]} ∪ files w)
  /\ (forall m, In (StSuccess m) (Eff.calls o) ->
        m = AtPath "Saved to: " final_path /\ final_path ∈ files (Eff.state o)).
Proof.
  intros Hprog o final_path. subst o.
  unfold download_clicked. cbv zeta. rewrite Hprog. cbn [negb].
  rewrite try_except_eq.
  match goal with |- context [Eff.result (?b w)] => set (body := b) end.
  set (w1 := mkWorld (files w)
               (mk (Some progress_bar) (Some status_text)
                   (Stream.filesize selected_stream) (first_clock env)
                   (Stream.filesize selected_stream))).
  set (d := download selected_stream (get_download_folder env)
              (Filename (sanitize_filename (Stream.default_filename selected_stream)))
              (first_transfer env) w1).
  assert (Hbody : body w =
            match Eff.result d with
            | Ok out_file =>
                Eff.mkOutcome (Eff.state d)
                  (StatusText status_text "Downloading Standard Stream..."
                   :: Eff.calls d
                   ++ [BarSet progress_bar 100;
                       StatusMarkdown status_text "### Download Complete!";
                       StSuccess (AtPath "Saved to: " out_file);
                       StBalloons])
                  (Ok tt)
            | Raise e =>
                Eff.mkOutcome (Eff.state d)
                  (StatusText status_text "Downloading Standard Stream..." :: Eff.calls d)
                  (Raise e)
            end).
  { subst body. rewrite bind_eq, with_monitor_set_ui.
    cbn [Eff.result Eff.state Eff.calls app]. fold w1.
    rewrite bind_emit, bind_eq. fold d.
    destruct (Eff.result d) as [out|e]; [|reflexivity].
    rewrite !bind_emit. reflexivity. }
  rewrite Hbody. clear Hbody body.
  pose proof (download_calls selected_stream (get_download_folder env)
                (Filename (sanitize_filename (Stream.default_filename selected_stream)))
                (first_transfer env) w1) as Hcalls.
  fold d in Hcalls.
  assert (Hd : (Eff.result d = Ok final_path
                /\ files (Eff.state d) = {[ final_path ]} ∪ files w)
               \/ (exists e, Eff.result d = Raise e
                              /\ (files (Eff.state d) = files w
                                  \/ files (Eff.state d) = {[ final_path ]} ∪ files w))).
  { subst d. rewrite download_eq. cbv zeta. cbn [target_name]. fold final_path.
    destruct (first_transfer env) as [e|ticks failure].
    - right. exists e. auto.
    - cbn [Eff.result Eff.state files w1].
      destruct (Eff.result (on_progress_all ticks (monitor w1))) as [[]|e];
        [destruct failure as [e|]|]; eauto. }
  destruct Hd as [[Hr Hf]|(e & Hr & Hf)]; rewrite Hr;
    cbn [Eff.result Eff.state Eff.calls Eff.emit app].
  - split; [|split; [right; exact Hf|]].
    + intros cmd [H|H]; [discriminate|].
      apply in_app_iff in H as [H|H].
      * apply Hcalls in H as [H|[c H]]; discriminate.
      * cbn in H. intuition discriminate.
    + intros m [H|H]; [discriminate|].
      apply in_app_iff in H as [H|H].
      * apply Hcalls in H as [H|[c H]]; discriminate.
      * cbn in H. destruct H as [H|[H|[H|[H|[]]]]]; try discriminate.
        inversion H; subst. split; [reflexivity|]. rewrite Hf.
        apply elem_of_union_l, elem_of_singleton. reflexivity.
  - split; [|split; [exact Hf|]].
    + intros cmd H. rewrite app_comm_cons in H. apply in_app_iff in H as [[H|H]|H].
      * discriminate.
      * apply Hcalls in H as [H|[c H]]; discriminate.
      * cbn in H. intuition discriminate.
    + intros m H. rewrite app_comm_cons in H. apply in_app_iff in H as [[H|H]|H].
      * discriminate.
      * apply Hcalls in H as [H|[c H]]; discriminate.
      * cbn in H. intuition discriminate.
Qed.

Lemma standard_download_witness :
  let stream := Stream.mk 18 "video" "mp4" (Some "360p") None true true
                  10000000 "a:b.mp4" in
  let env := mkEnv "/home/u" (fun _ fs => (Exited 0, fs))
               10%Q (Streamed [(11%Q, 0)] None) 12%Q (Refused FileNotFoundError) in
  let o := download_clicked env (mkWidget 0) (mkWidget 1) stream None 0
             (mkWorld ∅ init) in
  Stream.is_progressive stream = true
  /\ (forall cmd, ~ In (Spawn cmd) (Eff.calls o))
  /\ In (StSuccess (AtPath "Saved to: " "/home/u/Downloads/ab.mp4")) (Eff.calls o)
  /\ "/home/u/Downloads/ab.mp4" ∈ files (Eff.state o).
Proof.
  intros stream env o.
  assert (Hp : Stream.is_progressive stream = true) by reflexivity.
  destruct (standard_download env (mkWidget 0) (mkWidget 1) stream None 0
              (mkWorld ∅ init) Hp) as (Hno & _ & Hok).
  assert (Hin : In (StSuccess (AtPath "Saved to: " "/home/u/Downloads/ab.mp4"))
                   (Eff.calls o)).
  { vm_compute. do 6 right. left. reflexivity. }
  split; [exact Hp|]. split; [exact Hno|]. split; [exact Hin|].
  exact (proj2 (Hok _ Hin)).
Defined.




End DownloadAction.
